(** * EdgeLogger for Axiom: a shallow embedding of [src/index.ts]

    The logger is a single class, [EdgeLogger].  It is embedded as a record
    of its fields together with a host record that holds everything the
    class touches outside itself: the console, the network, the
    deferred-work registrar ([ctx.waitUntil]), the timers, the promises and
    the suspended [async] bodies.  Every synchronous stretch of code between
    two [await]s is one function on that pair; the event loop is a step
    function over events chosen by the environment. *)

From Stdlib Require Import ZArith List String Ascii Bool Lia.
From Stdlib Require Import Numbers.DecimalString.
Import ListNotations.

Local Open Scope list_scope.
Local Open Scope string_scope.

(** ** JavaScript values *)

Set Warnings "-register-all".

(** The values a caller can hand to the logger ([unknown] in the source).
    Numbers are restricted to integers below the size where ToString
    switches to the exponent form; an object is the list of its own
    enumerable properties in property-creation order, with pairwise
    distinct keys none of which is an array index (those would be listed
    first).  [JCyclic] is an object or array that contains itself. *)
Inductive JsVal : Type :=
| JUndefined
| JNull
| JBool (b : bool)
| JNum (n : Z)
| JBigInt (n : Z)
| JStr (s : string)
| JArr (elems : list JsVal)
| JObj (props : list (string * JsVal))
| JError (message : string) (stack : option string)
| JCyclic.

(** Own enumerable properties. *)
Definition Props := list (string * JsVal).

(** Result of running code that may throw. *)
Inductive Completion (A : Type) : Type :=
| Normal (a : A)
| Throw (e : string).
Arguments Normal {A} a.
Arguments Throw {A} e.

(** ToBoolean. *)
Definition truthy (v : JsVal) : bool :=
  match v with
  | JUndefined | JNull => false
  | JBool b => b
  | JNum n | JBigInt n => negb (Z.eqb n 0)
  | JStr s => negb (String.eqb s "")
  | JArr _ | JObj _ | JError _ _ | JCyclic => true
  end.

(** [a || b] on values. *)
Definition js_or (a b : JsVal) : JsVal := if truthy a then a else b.

(** [a ?? b] on values. *)
Definition js_nullish (a b : JsVal) : JsVal :=
  match a with
  | JUndefined | JNull => b
  | _ => a
  end.

(** The value of the key [k] among the properties [o], if it is there. *)
Fixpoint obj_lookup (k : string) (o : Props) : option JsVal :=
  match o with
  | [] => None
  | (k', v) :: rest => if String.eqb k k' then Some v else obj_lookup k rest
  end.

Definition obj_get (k : string) (o : Props) : JsVal :=
  match obj_lookup k o with
  | Some v => v
  | None => JUndefined
  end.

(** Property definition: an existing key keeps its place and takes the new
    value, a new key goes last. *)
Fixpoint obj_set (k : string) (v : JsVal) (o : Props) : Props :=
  match o with
  | [] => [(k, v)]
  | (k', v') :: rest =>
      if String.eqb k k' then (k', v) :: rest else (k', v') :: obj_set k v rest
  end.

(** Object spread [{...o, ...src}] (CopyDataProperties): for every own key
    of [src], in order, the value read from [src] under that key is defined
    on [o]. *)
Definition obj_spread_keys (src : Props) (keys : list string)
    (o : Props) : Props :=
  fold_left (fun acc k => obj_set k (obj_get k src) acc) keys o.

Definition obj_spread (o src : Props) : Props :=
  obj_spread_keys src (map fst src) o.

(** An object as the logger's caller passes it.  [enumerable] holds its own
    enumerable properties, the ones a spread copies and [JSON.stringify]
    prints; [hidden] holds what a property read finds beyond them: the own
    properties that are not enumerable and the properties of the prototype
    chain, nearest first. *)
Record JsObject : Type := { enumerable : Props; hidden : Props }.

(** An object literal: nothing hidden. *)
Definition plain (o : Props) : JsObject := {| enumerable := o; hidden := [] |}.

(** Property read [o.k]: an own property first, then the prototype chain;
    [undefined] when the key is nowhere. *)
Definition read (k : string) (o : JsObject) : JsVal :=
  match obj_lookup k (enumerable o) with
  | Some v => v
  | None => obj_get k (hidden o)
  end.

(** ToString on an integral number. *)
Definition Z_to_string (z : Z) : string := NilZero.string_of_int (Z.to_int z).

(** Template-literal interpolation of a [string | undefined]. *)
Definition show_opt (o : option string) : string :=
  match o with
  | Some s => s
  | None => "undefined"
  end.

(** ** JSON.stringify *)

Module JSON.

Definition hex_digit (n : nat) : ascii :=
  match n with
  | 0 => "0" | 1 => "1" | 2 => "2" | 3 => "3" | 4 => "4" | 5 => "5"
  | 6 => "6" | 7 => "7" | 8 => "8" | 9 => "9" | 10 => "a" | 11 => "b"
  | 12 => "c" | 13 => "d" | 14 => "e" | _ => "f"
  end%char.

Definition dquote : string := String (ascii_of_nat 34) EmptyString.

(** QuoteJSONString, one code unit at a time. *)
Definition quote_char (c : ascii) : string :=
  let n := nat_of_ascii c in
  if Nat.eqb n 34 then "\" ++ dquote
  else if Nat.eqb n 92 then "\\"
  else if Nat.eqb n 8 then "\b"
  else if Nat.eqb n 9 then "\t"
  else if Nat.eqb n 10 then "\n"
  else if Nat.eqb n 12 then "\f"
  else if Nat.eqb n 13 then "\r"
  else if Nat.ltb n 32 then
    "\u00" ++ String (hex_digit (n / 16)) (String (hex_digit (n mod 16)) "")
  else String c "".

Fixpoint quote_body (s : string) : string :=
  match s with
  | EmptyString => ""
  | String c rest => quote_char c ++ quote_body rest
  end.

Definition quote_json (s : string) : string := dquote ++ quote_body s ++ dquote.

Fixpoint join (sep : string) (parts : list string) : string :=
  match parts with
  | [] => ""
  | [p] => p
  | p :: rest => p ++ sep ++ join sep rest
  end.

(** The bracketing shared by SerializeJSONObject and SerializeJSONArray. *)
Definition wrap (opening closing gap stepback indent : string)
    (parts : list string) : string :=
  match parts with
  | [] => opening ++ closing
  | _ =>
      if String.eqb gap "" then opening ++ join "," parts ++ closing
      else
        let nl := String (ascii_of_nat 10) EmptyString in
        opening ++ nl ++ indent ++ join ("," ++ nl ++ indent) parts
          ++ nl ++ stepback ++ closing
  end.

(** The elements of an array, where [undefined] prints as [null]; the
    first element that throws ends the serialization. *)
Definition items (ser : JsVal -> Completion (option string))
    : list JsVal -> Completion (list string) :=
  fix go (l : list JsVal) : Completion (list string) :=
    match l with
    | [] => Normal []
    | x :: rest =>
        match ser x with
        | Throw e => Throw e
        | Normal o =>
            match go rest with
            | Throw e => Throw e
            | Normal r =>
                Normal (match o with Some s => s | None => "null" end :: r)
            end
        end
    end.

(** The members of an object; a property whose value prints as
    [undefined] is left out. *)
Definition members (ser : JsVal -> Completion (option string))
    (colon : string) : list (string * JsVal) -> Completion (list string) :=
  fix go (l : list (string * JsVal)) : Completion (list string) :=
    match l with
    | [] => Normal []
    | kv :: rest =>
        match ser (snd kv) with
        | Throw e => Throw e
        | Normal o =>
            match go rest with
            | Throw e => Throw e
            | Normal r =>
                Normal (match o with
                        | Some s => (quote_json (fst kv) ++ colon ++ s) :: r
                        | None => r
                        end)
            end
        end
    end.

(** SerializeJSONProperty.  [None] is the [undefined] result; a BigInt or
    a cycle anywhere in the value makes the whole call throw a TypeError.
    An Error object has no enumerable own property and prints as an empty
    object.  No value of [JsVal] has a [toJSON] method. *)
Fixpoint serialize (gap indent : string) (v : JsVal)
    : Completion (option string) :=
  match v with
  | JUndefined => Normal None
  | JNull => Normal (Some "null")
  | JBool true => Normal (Some "true")
  | JBool false => Normal (Some "false")
  | JNum n => Normal (Some (Z_to_string n))
  | JBigInt _ => Throw "TypeError: Do not know how to serialize a BigInt"
  | JStr s => Normal (Some (quote_json s))
  | JError _ _ => Normal (Some "{}")
  | JCyclic => Throw "TypeError: Converting circular structure to JSON"
  | JArr elems =>
      let inner := indent ++ gap in
      match items (serialize gap inner) elems with
      | Throw e => Throw e
      | Normal parts => Normal (Some (wrap "[" "]" gap indent inner parts))
      end
  | JObj props =>
      let inner := indent ++ gap in
      let colon := if String.eqb gap "" then ":" else ": " in
      match members (serialize gap inner) colon props with
      | Throw e => Throw e
      | Normal parts => Normal (Some (wrap "{" "}" gap indent inner parts))
      end
  end.

(** [JSON.stringify(v)]. *)
Definition stringify (v : JsVal) : Completion (option string) :=
  serialize "" "" v.

(** [JSON.stringify(v, null, 2)]. *)
Definition stringify_indent2 (v : JsVal) : Completion (option string) :=
  serialize "  " "" v.

End JSON.

(** ** The class and its host *)

Inductive LogLevel : Type := LInfo | LWarning | LError | LDebug.

Definition level_name (l : LogLevel) : string :=
  match l with
  | LInfo => "info"
  | LWarning => "warning"
  | LError => "error"
  | LDebug => "debug"
  end.

(** A log record is the object built in [_log]. *)
Definition Log := Props.

(** The handle of the host's deferred-work capability. *)
Inductive ExecutionContext : Type := WorkerContext.

(** [LoggerArgs].  [None] is an omitted option; [arg_requestId] is
    [string | null | undefined]. *)
Record LoggerArgs : Type := {
  arg_ctx : option ExecutionContext;
  arg_apiKey : string;
  arg_dataset : option string;
  arg_service : option string;
  arg_apiURL : option string;
  arg_flushAfterMs : option Z;
  arg_flushAfterLogs : option Z;
  arg_requestId : option (option string);
  arg_isLocalDev : option bool
}.

(** The fields of [EdgeLogger].  [flushTimeout] and [flushPromise] hold the
    identity of a timer and of a promise, or [None] for [null]. *)
Record EdgeLogger : Type := {
  ctx : option ExecutionContext;
  apiKey : string;
  dataset : string;
  service : option string;
  logs : list Log;
  requestId : string;
  flushTimeout : option nat;
  flushPromise : option nat;
  flushAfterMs : Z;
  flushAfterLogs : Z;
  apiURL : string;
  isLocalDev : bool
}.

Definition set_logs (l : list Log) (e : EdgeLogger) : EdgeLogger :=
  {| ctx := ctx e; apiKey := apiKey e; dataset := dataset e;
     service := service e; logs := l; requestId := requestId e;
     flushTimeout := flushTimeout e; flushPromise := flushPromise e;
     flushAfterMs := flushAfterMs e; flushAfterLogs := flushAfterLogs e;
     apiURL := apiURL e; isLocalDev := isLocalDev e |}.

Definition set_flushTimeout (t : option nat) (e : EdgeLogger) : EdgeLogger :=
  {| ctx := ctx e; apiKey := apiKey e; dataset := dataset e;
     service := service e; logs := logs e; requestId := requestId e;
     flushTimeout := t; flushPromise := flushPromise e;
     flushAfterMs := flushAfterMs e; flushAfterLogs := flushAfterLogs e;
     apiURL := apiURL e; isLocalDev := isLocalDev e |}.

Definition set_flushPromise (p : option nat) (e : EdgeLogger) : EdgeLogger :=
  {| ctx := ctx e; apiKey := apiKey e; dataset := dataset e;
     service := service e; logs := logs e; requestId := requestId e;
     flushTimeout := flushTimeout e; flushPromise := p;
     flushAfterMs := flushAfterMs e; flushAfterLogs := flushAfterLogs e;
     apiURL := apiURL e; isLocalDev := isLocalDev e |}.

(** How a promise settled. *)
Inductive Settled : Type :=
| Fulfilled
| Rejected (e : string).

Inductive ConsoleLine : Type :=
| ConsoleLog (line : string)
| ConsoleError (line : string).

(** The arguments of one [fetch] call. *)
Record Request : Type := {
  url : string;
  method : string;
  headers : list (string * string);
  body : string
}.

(** An [async] body suspended at an [await]; the comment gives the line of
    [src/index.ts] it waits at. *)
Inductive Task : Type :=
| FlushAwaitPrevious (self : nat) (awaited : option nat)      (* 174 *)
| FlushAwaitCurrent (self : nat) (awaited : nat)              (* 177 *)
| DoFlushAwaitFetch (self : nat) (logsCount : nat) (req : nat) (* 146 *)
| DoFlushAwaitArrayBuffer (self : nat) (req : nat)            (* 160 *)
| DoFlushAwaitText (self : nat) (req : nat)
    (status : Z) (statusText : string).                       (* 165 *)

(** What the class asks of its host, in the order it asks. *)
Inductive Effect : Type :=
| Printed (l : ConsoleLine)
| Requested (req : nat)
| RegisteredWork (p : nat)
| Armed (t : nat)
| Cleared (t : nat).

(** Everything outside the class.  [console] is the fallback sink,
    [requests] the network calls made so far (a request is named by its
    position), [registered] the promises handed to [ctx.waitUntil],
    [timers] the live timers with their delay, [cleared] the timers
    cancelled by [clearTimeout], [settled] the promises that are no longer
    pending, [unhandled] the errors of rejected promises nobody awaits or
    of a throwing timer callback, [journal] the calls into the host in the
    order they were made. *)
Record Host : Type := {
  console : list ConsoleLine;
  requests : list Request;
  registered : list nat;
  timers : list (nat * Z);
  cleared : list nat;
  next_timer : nat;
  settled : list (nat * Settled);
  next_promise : nat;
  tasks : list Task;
  unhandled : list string;
  journal : list Effect
}.

Record Sys : Type := { this : EdgeLogger; host : Host }.

Definition on_this (f : EdgeLogger -> EdgeLogger) (s : Sys) : Sys :=
  {| this := f (this s); host := host s |}.

Definition on_host (f : Host -> Host) (s : Sys) : Sys :=
  {| this := this s; host := f (host s) |}.

(** *** Host primitives *)

(** [console.log] and [console.error]. *)
Definition write (l : ConsoleLine) (h : Host) : Host :=
  {| console := console h ++ [l]; requests := requests h;
     registered := registered h; timers := timers h; cleared := cleared h;
     next_timer := next_timer h; settled := settled h;
     next_promise := next_promise h; tasks := tasks h;
     unhandled := unhandled h; journal := journal h ++ [Printed l] |}.

(** [fetch(...)]: the request leaves. *)
Definition issue (r : Request) (h : Host) : Host :=
  {| console := console h; requests := requests h ++ [r];
     registered := registered h; timers := timers h; cleared := cleared h;
     next_timer := next_timer h; settled := settled h;
     next_promise := next_promise h; tasks := tasks h;
     unhandled := unhandled h;
     journal := journal h ++ [Requested (List.length (requests h))] |}.

(** [ctx.waitUntil(p)]. *)
Definition register (p : nat) (h : Host) : Host :=
  {| console := console h; requests := requests h;
     registered := registered h ++ [p]; timers := timers h;
     cleared := cleared h; next_timer := next_timer h; settled := settled h;
     next_promise := next_promise h; tasks := tasks h;
     unhandled := unhandled h; journal := journal h ++ [RegisteredWork p] |}.

(** [setTimeout]: a fresh timer. *)
Definition arm (delay : Z) (h : Host) : Host :=
  {| console := console h; requests := requests h;
     registered := registered h;
     timers := timers h ++ [(next_timer h, delay)]; cleared := cleared h;
     next_timer := S (next_timer h); settled := settled h;
     next_promise := next_promise h; tasks := tasks h;
     unhandled := unhandled h;
     journal := journal h ++ [Armed (next_timer h)] |}.

Definition drop_timer (t : nat) (l : list (nat * Z)) : list (nat * Z) :=
  filter (fun td => negb (Nat.eqb (fst td) t)) l.

(** [clearTimeout(t)]. *)
Definition disarm (t : nat) (h : Host) : Host :=
  {| console := console h; requests := requests h;
     registered := registered h; timers := drop_timer t (timers h);
     cleared := cleared h ++ [t]; next_timer := next_timer h;
     settled := settled h; next_promise := next_promise h; tasks := tasks h;
     unhandled := unhandled h; journal := journal h ++ [Cleared t] |}.

(** The timer [t] fires and is gone. *)
Definition expire (t : nat) (h : Host) : Host :=
  {| console := console h; requests := requests h;
     registered := registered h; timers := drop_timer t (timers h);
     cleared := cleared h; next_timer := next_timer h; settled := settled h;
     next_promise := next_promise h; tasks := tasks h;
     unhandled := unhandled h; journal := journal h |}.

(** A new promise, pending ([None]) or already settled. *)
Definition new_promise (st : option Settled) (h : Host) : Host :=
  {| console := console h; requests := requests h;
     registered := registered h; timers := timers h; cleared := cleared h;
     next_timer := next_timer h;
     settled := match st with
                | Some r => (next_promise h, r) :: settled h
                | None => settled h
                end;
     next_promise := S (next_promise h); tasks := tasks h;
     unhandled := unhandled h; journal := journal h |}.

Definition settle (p : nat) (r : Settled) (h : Host) : Host :=
  {| console := console h; requests := requests h;
     registered := registered h; timers := timers h; cleared := cleared h;
     next_timer := next_timer h; settled := (p, r) :: settled h;
     next_promise := next_promise h; tasks := tasks h;
     unhandled := unhandled h; journal := journal h |}.

Definition set_tasks (l : list Task) (h : Host) : Host :=
  {| console := console h; requests := requests h;
     registered := registered h; timers := timers h; cleared := cleared h;
     next_timer := next_timer h; settled := settled h;
     next_promise := next_promise h; tasks := l; unhandled := unhandled h;
     journal := journal h |}.

Definition spawn (t : Task) (h : Host) : Host := set_tasks (t :: tasks h) h.

Definition report (e : string) (h : Host) : Host :=
  {| console := console h; requests := requests h;
     registered := registered h; timers := timers h; cleared := cleared h;
     next_timer := next_timer h; settled := settled h;
     next_promise := next_promise h; tasks := tasks h;
     unhandled := unhandled h ++ [e]; journal := journal h |}.

(** The state of a promise: [None] while it is pending. *)
Fixpoint promise_lookup (p : nat) (l : list (nat * Settled)) : option Settled :=
  match l with
  | [] => None
  | (q, r) :: rest => if Nat.eqb p q then Some r else promise_lookup p rest
  end.

Definition promise_state (p : nat) (h : Host) : option Settled :=
  promise_lookup p (settled h).

Definition console_log (line : string) : Sys -> Sys :=
  on_host (write (ConsoleLog line)).

Definition console_error (line : string) : Sys -> Sys :=
  on_host (write (ConsoleError line)).

Definition clearTimeout (t : nat) : Sys -> Sys := on_host (disarm t).

(** [setTimeout(callback, delay)]; the class has one callback, see
    [timer_callback]. *)
Definition setTimeout (delay : Z) (s : Sys) : nat * Sys :=
  (next_timer (host s), on_host (arm delay) s).

Definition waitUntil (p : nat) : Sys -> Sys := on_host (register p).

Definition is_some {A : Type} (o : option A) : bool :=
  match o with Some _ => true | None => false end.

(** *** constructor *)

Definition or_default {A : Type} (o : option A) (d : A) : A :=
  match o with Some a => a | None => d end.

(** [new EdgeLogger(args)]; [uuid] is what [crypto.randomUUID()] returns
    when it is called. *)
Definition constructor (args : LoggerArgs) (uuid : string) : EdgeLogger :=
  {| ctx := arg_ctx args;
     apiKey := arg_apiKey args;
     dataset := or_default (arg_dataset args) "edge-logger";
     service := arg_service args;
     logs := [];
     requestId :=
       match arg_requestId args with
       | Some (Some r) => if String.eqb r "" then uuid else r
       | Some None | None => uuid
       end;
     flushTimeout := None;
     flushPromise := None;
     flushAfterMs := or_default (arg_flushAfterMs args) 10000%Z;
     flushAfterLogs := or_default (arg_flushAfterLogs args) 100%Z;
     apiURL := or_default (arg_apiURL args) "https://api.axiom.co/v1";
     isLocalDev := or_default (arg_isLocalDev args) false |}.

Definition empty_host : Host :=
  {| console := []; requests := []; registered := []; timers := [];
     cleared := []; next_timer := 1; settled := []; next_promise := 0;
     tasks := []; unhandled := []; journal := [] |}.

Definition boot (args : LoggerArgs) (uuid : string) : Sys :=
  {| this := constructor args uuid; host := empty_host |}.

(** *** flush *)

(** The synchronous start of the inner [doFlush] (lines 139-156): it stops
    at once on an empty buffer, otherwise snapshots the length, serializes
    the buffer and issues the request. *)
Definition doFlush (s : Sys) : nat * Sys :=
  let d := next_promise (host s) in
  let e := this s in
  match logs e with
  | [] => (d, on_host (new_promise (Some Fulfilled)) s)
  | _ :: _ =>
      let logsCount := List.length (logs e) in
      match JSON.stringify (JArr (map JObj (logs e))) with
      | Throw err => (d, on_host (new_promise (Some (Rejected err))) s)
      | Normal logsBody =>
          let r := {| url := (apiURL e ++ "/datasets/" ++ dataset e ++ "/ingest")%string;
                      method := "POST";
                      headers := [("Content-Type", "application/json");
                                  ("Authorization", ("Bearer " ++ apiKey e)%string)];
                      body := show_opt logsBody |} in
          let req := List.length (requests (host s)) in
          (d, on_host (fun h => spawn (DoFlushAwaitFetch d logsCount req)
                                  (issue r (new_promise None h))) s)
      end
  end.

(** [flush({ skipIfInProgress })] up to its first [await] (lines 135-174).
    The result is the promise the call returns. *)
Definition flush (skipIfInProgress : bool) (s : Sys) : nat * Sys :=
  let p := next_promise (host s) in
  if skipIfInProgress && is_some (flushPromise (this s)) then
    (p, on_host (new_promise (Some Fulfilled)) s)
  else
    (p, on_host (fun h => spawn (FlushAwaitPrevious p (flushPromise (this s)))
                            (new_promise None h)) s).

(** Lines 176-177, run when the [await] of line 174 is over. *)
Definition flush_start (p : nat) (s : Sys) : Sys :=
  let (d, s1) := doFlush s in
  on_host (spawn (FlushAwaitCurrent p d))
    (on_this (set_flushPromise (Some d)) s1).

(** Line 178, run when the [await] of line 177 is over. *)
Definition flush_finish (p : nat) (s : Sys) : Sys :=
  on_host (settle p Fulfilled) (on_this (set_flushPromise None) s).

(** An [await] on a rejected promise throws out of [flush]. *)
Definition flush_throw (p : nat) (err : string) : Sys -> Sys :=
  on_host (settle p (Rejected err)).

(** Resuming a suspended [flush]; [None] while what it awaits is pending. *)
Definition resume_flush (t : Task) (s : Sys) : option Sys :=
  match t with
  | FlushAwaitPrevious p None => Some (flush_start p s)
  | FlushAwaitPrevious p (Some q) =>
      match promise_state q (host s) with
      | None => None
      | Some Fulfilled => Some (flush_start p s)
      | Some (Rejected err) => Some (flush_throw p err s)
      end
  | FlushAwaitCurrent p d =>
      match promise_state d (host s) with
      | None => None
      | Some Fulfilled => Some (flush_finish p s)
      | Some (Rejected err) => Some (flush_throw p err s)
      end
  | _ => None
  end.

(** [res.ok]: the status is in the range 200-299. *)
Definition response_ok (status : Z) : bool :=
  (200 <=? status)%Z && (status <=? 299)%Z.

Definition failure_prefix : string := "Axiom failed to ingest logs: ".

(** Lines 157-167, run when [fetch] resolved with a response. *)
Definition doFlush_response (d logsCount req : nat) (status : Z)
    (statusText : string) (s : Sys) : Sys :=
  if response_ok status then
    on_host (spawn (DoFlushAwaitArrayBuffer d req))
      (on_this (fun e => set_logs (skipn logsCount (logs e)) e) s)
  else
    on_host (spawn (DoFlushAwaitText d req status statusText)) s.

(** Lines 168-170: the [catch] clause, which ends [doFlush]. *)
Definition doFlush_catch (d : nat) (err : string) (s : Sys) : Sys :=
  on_host (settle d Fulfilled) (console_error (failure_prefix ++ err) s).

(** The body of the response has been read. *)
Definition doFlush_body (t : Task) (text : string) (s : Sys) : option Sys :=
  match t with
  | DoFlushAwaitArrayBuffer d _ => Some (on_host (settle d Fulfilled) s)
  | DoFlushAwaitText d _ status statusText =>
      Some (on_host (settle d Fulfilled)
              (console_log (failure_prefix ++ Z_to_string status ++ " "
                              ++ statusText ++ " " ++ text) s))
  | _ => None
  end.

(** *** scheduleFlush *)

Definition scheduleFlush (timeout : Z) (reset : bool) (s : Sys) : Sys :=
  let s1 :=
    match flushTimeout (this s) with
    | Some t =>
        if reset then on_this (set_flushTimeout None) (clearTimeout t s) else s
    | None => s
    end in
  if negb (is_some (flushTimeout (this s1)))
     && negb (is_some (flushPromise (this s1))) then
    let (t, s2) := setTimeout timeout s1 in
    on_this (set_flushTimeout (Some t)) s2
  else s1.

(** The callback given to [setTimeout] (lines 125-131).  Reading
    [this.ctx.waitUntil] comes first and throws without a context; the inner
    [doFlush] calls [flush] without awaiting it, clears the timer handle and
    its own, already fulfilled, promise is what gets registered. *)
Definition timer_callback (s : Sys) : Sys :=
  match ctx (this s) with
  | None =>
      on_host (report "TypeError: Cannot read properties of undefined") s
  | Some _ =>
      let (_, s1) := flush true s in
      let s2 := on_this (set_flushTimeout None) s1 in
      let q := next_promise (host s2) in
      waitUntil q (on_host (new_promise (Some Fulfilled)) s2)
  end.

(** *** _log and the record methods *)

(** What a record call reads from its surroundings: the trace id of the
    active span, if there is one, and [new Date().toISOString()]. *)
Record Ambient : Type := { traceId : option string; now : string }.

Definition esc (code : string) : string :=
  String (ascii_of_nat 27) code.

Definition colors (level : LogLevel) : string :=
  match level with
  | LInfo => esc "[32m"
  | LWarning => esc "[33m"
  | LError => esc "[31m"
  | LDebug => esc "[35m"
  end.

Definition grey : string := esc "[90m".
Definition white : string := esc "[0m".

Definition opt_str (o : option string) : JsVal :=
  match o with Some s => JStr s | None => JUndefined end.

(** [data?.level]. *)
Definition data_level (data : option JsObject) : JsVal :=
  match data with
  | Some d => read "level" d
  | None => JUndefined
  end.

(** What [...data] copies: the own enumerable properties of the fields,
    nothing when there are no fields. *)
Definition spread_of (data : option JsObject) : Props :=
  match data with
  | Some d => enumerable d
  | None => []
  end.

(** The object literal of lines 85-93. *)
Definition make_log (amb : Ambient) (e : EdgeLogger) (message : option string)
    (level : LogLevel) (data : option JsObject) : Log :=
  obj_spread
    [("message", opt_str message);
     ("level", js_or (data_level data) (JStr (level_name level)));
     ("traceId", opt_str (traceId amb));
     ("_time", JStr (now amb));
     ("service", opt_str (service e));
     ("requestId", JStr (requestId e))]
    (spread_of data).

Definition local_dev_line (e : EdgeLogger) (message : option string)
    (level : LogLevel) : string :=
  colors level ++ level_name level ++ grey ++ " - " ++ requestId e ++ " - "
    ++ white ++ show_opt message.

(** Lines 94-99: the record goes to the console when there is no API key or
    no context. *)
Definition fallback_print (log : Log) (s : Sys) : Completion Sys :=
  if String.eqb (apiKey (this s)) "" || negb (is_some (ctx (this s))) then
    match JSON.stringify (JObj log) with
    | Throw err => Throw err
    | Normal text => Normal (console_log (show_opt text) s)
    end
  else Normal s.

(** Lines 102-111. *)
Definition after_push (s : Sys) : Settled * Sys :=
  let e := this s in
  if (Z.of_nat (List.length (logs e)) >=? flushAfterLogs e)%Z then
    let s1 :=
      if is_some (flushTimeout e) then scheduleFlush (flushAfterMs e) true s
      else s in
    match ctx (this s1) with
    | None => (Rejected "TypeError: Cannot read properties of undefined", s1)
    | Some _ =>
        let (p, s2) := flush true s1 in
        (Fulfilled, waitUntil p s2)
    end
  else (Fulfilled, scheduleFlush (flushAfterMs e) false s).

(** The body of [_log]; it has no [await], so it runs to its end within the
    call.  The first component says how the promise of the call settles. *)
Definition _log (amb : Ambient) (message : option string) (level : LogLevel)
    (data : option JsObject) (s : Sys) : Settled * Sys :=
  let e := this s in
  if isLocalDev e then
    let s1 := console_log (local_dev_line e message level) s in
    match data with
    | None => (Fulfilled, s1)
    | Some d =>
        match JSON.stringify_indent2 (JObj (enumerable d)) with
        | Throw err => (Rejected err, s1)
        | Normal text =>
            (Fulfilled, console_log (grey ++ " " ++ show_opt text) s1)
        end
    end
  else
    let log := make_log amb e message level data in
    match fallback_print log s with
    | Throw err => (Rejected err, s)
    | Normal s1 =>
        after_push (on_this (fun e => set_logs (logs e ++ [log]) e) s1)
    end.

(** [this._log(...)] without [await]: the promise is dropped, a rejection
    reaches nobody. *)
Definition unawaited (r : Settled * Sys) : Sys :=
  match fst r with
  | Fulfilled => snd r
  | Rejected err => on_host (report err) (snd r)
  end.

Definition log (amb : Ambient) (msg : string) (data : option JsObject)
    (s : Sys) : Sys :=
  unawaited (_log amb (Some msg) LInfo data s).

Definition info (amb : Ambient) (msg : string) (data : option JsObject)
    (s : Sys) : Sys :=
  unawaited (_log amb (Some msg) LInfo data s).

Definition warn (amb : Ambient) (msg : string) (data : option JsObject)
    (s : Sys) : Sys :=
  unawaited (_log amb (Some msg) LWarning data s).

(** Lines 194-201: the message [error] computes from its first argument. *)
Definition error_message (msg : JsVal) : Completion (option string) :=
  match msg with
  | JError message stack =>
      Normal (Some (message ++
                    match stack with
                    | Some st => if String.eqb st "" then "" else ": " ++ st
                    | None => ""
                    end))
  | JStr str => Normal (Some str)
  | other => JSON.stringify other
  end.

Definition error (amb : Ambient) (msg : JsVal) (data : option JsObject)
    (s : Sys) : Completion Sys :=
  match error_message msg with
  | Throw err => Throw err
  | Normal m => Normal (unawaited (_log amb m LError data s))
  end.

Definition debug (amb : Ambient) (msg : string) (data : option JsObject)
    (s : Sys) : Sys :=
  unawaited (_log amb (Some msg) LDebug data s).

(** ** The event loop *)

Inductive Event : Type :=
| CallLog (amb : Ambient) (msg : string) (data : option JsObject)
| CallInfo (amb : Ambient) (msg : string) (data : option JsObject)
| CallWarn (amb : Ambient) (msg : string) (data : option JsObject)
| CallError (amb : Ambient) (msg : JsVal) (data : option JsObject)
| CallDebug (amb : Ambient) (msg : string) (data : option JsObject)
| CallFlush (skipIfInProgress : bool)
| CallScheduleFlush (timeout : Z) (reset : bool)
| Resume (p : nat)
| FetchResolves (req : nat) (status : Z) (statusText : string)
| FetchRejects (req : nat) (err : string)
| BodyResolves (req : nat) (text : string)
| BodyRejects (req : nat) (err : string)
| TimerFires (t : nat).

(** The first task that satisfies [want], and the others. *)
Fixpoint take_task (want : Task -> bool) (l : list Task)
    : option (Task * list Task) :=
  match l with
  | [] => None
  | t :: rest =>
      if want t then Some (t, rest)
      else match take_task want rest with
           | Some (found, others) => Some (found, t :: others)
           | None => None
           end
  end.

Definition is_flush_of (p : nat) (t : Task) : bool :=
  match t with
  | FlushAwaitPrevious q _ | FlushAwaitCurrent q _ => Nat.eqb q p
  | _ => false
  end.

Definition awaits_fetch (req : nat) (t : Task) : bool :=
  match t with
  | DoFlushAwaitFetch _ _ r => Nat.eqb r req
  | _ => false
  end.

Definition awaits_body (req : nat) (t : Task) : bool :=
  match t with
  | DoFlushAwaitArrayBuffer _ r | DoFlushAwaitText _ r _ _ => Nat.eqb r req
  | _ => false
  end.

Definition task_self (t : Task) : nat :=
  match t with
  | FlushAwaitPrevious p _ | FlushAwaitCurrent p _ => p
  | DoFlushAwaitFetch d _ _ | DoFlushAwaitArrayBuffer d _
  | DoFlushAwaitText d _ _ _ => d
  end.

(** Take a suspended body out of the task list and run [k] on it. *)
Definition with_task (want : Task -> bool) (k : Task -> Sys -> option Sys)
    (s : Sys) : option Sys :=
  match take_task want (tasks (host s)) with
  | Some (t, others) => k t (on_host (set_tasks others) s)
  | None => None
  end.

(** One step of the system: a call from the application, or the host
    resuming a suspended body, answering a request or firing a timer.
    [None] when the event cannot happen in this state, or when the call
    throws. *)
Definition step (ev : Event) (s : Sys) : option Sys :=
  match ev with
  | CallLog amb msg data => Some (log amb msg data s)
  | CallInfo amb msg data => Some (info amb msg data s)
  | CallWarn amb msg data => Some (warn amb msg data s)
  | CallError amb msg data =>
      match error amb msg data s with
      | Normal s' => Some s'
      | Throw _ => None
      end
  | CallDebug amb msg data => Some (debug amb msg data s)
  | CallFlush skip => Some (snd (flush skip s))
  | CallScheduleFlush timeout reset => Some (scheduleFlush timeout reset s)
  | Resume p => with_task (is_flush_of p) resume_flush s
  | FetchResolves req status statusText =>
      with_task (awaits_fetch req)
        (fun t s' =>
           match t with
           | DoFlushAwaitFetch d n r =>
               Some (doFlush_response d n r status statusText s')
           | _ => None
           end) s
  | FetchRejects req err =>
      with_task (awaits_fetch req)
        (fun t s' => Some (doFlush_catch (task_self t) err s')) s
  | BodyResolves req text =>
      with_task (awaits_body req) (fun t s' => doFlush_body t text s') s
  | BodyRejects req err =>
      with_task (awaits_body req)
        (fun t s' => Some (doFlush_catch (task_self t) err s')) s
  | TimerFires t =>
      if existsb (fun td => Nat.eqb (fst td) t) (timers (host s)) then
        Some (timer_callback (on_host (expire t) s))
      else None
  end.

(** A run of events, stopping at the first one that cannot happen. *)
Fixpoint run (evs : list Event) (s : Sys) : option Sys :=
  match evs with
  | [] => Some s
  | ev :: rest =>
      match step ev s with
      | Some s' => run rest s'
      | None => None
      end
  end.

(** ** Auxiliary definitions for the statements *)

(** A BigInt or a cycle occurs somewhere in the value. *)
Fixpoint unserializable (v : JsVal) : bool :=
  match v with
  | JBigInt _ | JCyclic => true
  | JArr elems => existsb unserializable elems
  | JObj props => existsb (fun kv => unserializable (snd kv)) props
  | _ => false
  end.

Definition raises {A : Type} (c : Completion A) : bool :=
  match c with
  | Throw _ => true
  | Normal _ => false
  end.

Section DeepInduction.

Variable P : JsVal -> Prop.
Hypothesis P_undefined : P JUndefined.
Hypothesis P_null : P JNull.
Hypothesis P_bool : forall b, P (JBool b).
Hypothesis P_num : forall n, P (JNum n).
Hypothesis P_bigint : forall n, P (JBigInt n).
Hypothesis P_str : forall s, P (JStr s).
Hypothesis P_arr : forall l, Forall P l -> P (JArr l).
Hypothesis P_obj : forall l, Forall (fun kv => P (snd kv)) l -> P (JObj l).
Hypothesis P_error : forall m st, P (JError m st).
Hypothesis P_cyclic : P JCyclic.

(** Induction on a value with the hypothesis on every element and on
    every property value. *)
Fixpoint JsVal_deep_ind (v : JsVal) : P v :=
  match v with
  | JUndefined => P_undefined
  | JNull => P_null
  | JBool b => P_bool b
  | JNum n => P_num n
  | JBigInt n => P_bigint n
  | JStr s => P_str s
  | JArr l =>
      P_arr l
        ((fix all (l : list JsVal) : Forall P l :=
            match l with
            | [] => Forall_nil _
            | x :: rest => Forall_cons x (JsVal_deep_ind x) (all rest)
            end) l)
  | JObj l =>
      P_obj l
        ((fix all (l : list (string * JsVal))
            : Forall (fun kv => P (snd kv)) l :=
            match l with
            | [] => Forall_nil _
            | kv :: rest =>
                Forall_cons kv (JsVal_deep_ind (snd kv)) (all rest)
            end) l)
  | JError m st => P_error m st
  | JCyclic => P_cyclic
  end.

End DeepInduction.

(** How a delivery ends: [fetch] rejects, or it resolves with a response
    whose body is then read, which can fail as well. *)
Inductive BodyRead : Type :=
| BodyText (text : string)
| BodyFails (err : string).

Inductive Delivery : Type :=
| NetworkError (err : string)
| Responded (status : Z) (statusText : string) (body : BodyRead).

Definition delivery_events (req : nat) (o : Delivery) : list Event :=
  match o with
  | NetworkError err => [FetchRejects req err]
  | Responded status statusText (BodyText text) =>
      [FetchResolves req status statusText; BodyResolves req text]
  | Responded status statusText (BodyFails err) =>
      [FetchResolves req status statusText; BodyRejects req err]
  end.

(** The delivery failed: no response, or a response that is not [ok]. *)
Definition delivery_failed (o : Delivery) : bool :=
  match o with
  | NetworkError _ => true
  | Responded status _ _ => negb (response_ok status)
  end.

(** [s'] differs from [s] at most in what was printed and in the errors
    nobody handles: the class, the network, the registrar, the timers, the
    promises and the suspended bodies are the same. *)
Definition quiet (s s' : Sys) : Prop :=
  this s' = this s
  /\ requests (host s') = requests (host s)
  /\ registered (host s') = registered (host s)
  /\ timers (host s') = timers (host s)
  /\ cleared (host s') = cleared (host s)
  /\ next_timer (host s') = next_timer (host s)
  /\ settled (host s') = settled (host s)
  /\ next_promise (host s') = next_promise (host s)
  /\ tasks (host s') = tasks (host s).

Definition is_record_call (ev : Event) : bool :=
  match ev with
  | CallLog _ _ _ | CallInfo _ _ _ | CallWarn _ _ _ | CallError _ _ _
  | CallDebug _ _ _ => true
  | _ => false
  end.

(** A configuration and a call environment to run the class on. *)
Definition sample_args : LoggerArgs :=
  {| arg_ctx := Some WorkerContext; arg_apiKey := "token";
     arg_dataset := None; arg_service := None; arg_apiURL := None;
     arg_flushAfterMs := None; arg_flushAfterLogs := None;
     arg_requestId := Some (Some "req-1"); arg_isLocalDev := None |}.

Definition sample_amb : Ambient := {| traceId := None; now := "T0" |}.

Definition with_apiKey (k : string) (a : LoggerArgs) : LoggerArgs :=
  {| arg_ctx := arg_ctx a; arg_apiKey := k; arg_dataset := arg_dataset a;
     arg_service := arg_service a; arg_apiURL := arg_apiURL a;
     arg_flushAfterMs := arg_flushAfterMs a;
     arg_flushAfterLogs := arg_flushAfterLogs a;
     arg_requestId := arg_requestId a; arg_isLocalDev := arg_isLocalDev a |}.

Definition with_requestId (r : option (option string)) (a : LoggerArgs)
    : LoggerArgs :=
  {| arg_ctx := arg_ctx a; arg_apiKey := arg_apiKey a;
     arg_dataset := arg_dataset a; arg_service := arg_service a;
     arg_apiURL := arg_apiURL a; arg_flushAfterMs := arg_flushAfterMs a;
     arg_flushAfterLogs := arg_flushAfterLogs a; arg_requestId := r;
     arg_isLocalDev := arg_isLocalDev a |}.

Definition with_isLocalDev (b : bool) (a : LoggerArgs) : LoggerArgs :=
  {| arg_ctx := arg_ctx a; arg_apiKey := arg_apiKey a;
     arg_dataset := arg_dataset a; arg_service := arg_service a;
     arg_apiURL := arg_apiURL a; arg_flushAfterMs := arg_flushAfterMs a;
     arg_flushAfterLogs := arg_flushAfterLogs a;
     arg_requestId := arg_requestId a; arg_isLocalDev := Some b |}.

Definition with_flushAfterLogs (n : Z) (a : LoggerArgs) : LoggerArgs :=
  {| arg_ctx := arg_ctx a; arg_apiKey := arg_apiKey a;
     arg_dataset := arg_dataset a; arg_service := arg_service a;
     arg_apiURL := arg_apiURL a; arg_flushAfterMs := arg_flushAfterMs a;
     arg_flushAfterLogs := Some n; arg_requestId := arg_requestId a;
     arg_isLocalDev := arg_isLocalDev a |}.

(** The line a failed delivery leaves on the console. *)
Definition failure_line (o : Delivery) : ConsoleLine :=
  match o with
  | NetworkError err => ConsoleError (failure_prefix ++ err)
  | Responded status statusText (BodyText text) =>
      ConsoleLog (failure_prefix ++ Z_to_string status ++ " " ++ statusText
                    ++ " " ++ text)
  | Responded _ _ (BodyFails err) => ConsoleError (failure_prefix ++ err)
  end.

Definition or_else (o : option Sys) (s : Sys) : Sys :=
  match o with Some s' => s' | None => s end.

(** One record in the buffer and a [flush] whose request is on its way. *)
Definition in_flight_sys : Sys :=
  or_else (run [CallInfo sample_amb "a" None; CallFlush false; Resume 0]
             (boot sample_args "uuid-1"))
          (boot sample_args "uuid-1").

(** One record in the buffer, nothing in flight. *)
Definition buffered_sys : Sys :=
  info sample_amb "a" None (boot sample_args "uuid-1").

Definition threshold_sys : Sys :=
  info sample_amb "a" None (boot (with_flushAfterLogs 2 sample_args) "uuid-1").

Definition no_key_sys : Sys := boot (with_apiKey "" sample_args) "uuid-1".

Definition local_dev_sys : Sys :=
  boot (with_isLocalDev true sample_args) "uuid-1".

(** The usage of the README with a count threshold of one: the record call
    reaches the threshold and calls [flush({ skipIfInProgress: true })], and
    the handler ends on [ctx.waitUntil(logger.flush())]. *)
Definition readme_run : list Event :=
  [CallInfo sample_amb "a" None; CallFlush false; Resume 0; Resume 1].

(** The run in which two [flush] calls are made before either has resumed:
    one record, two calls of [flush()], both resumed in the order of the
    calls, a second record, and the two answers, both successful. *)
Definition overlap_run : list Event :=
  [CallInfo sample_amb "a" None;
   CallFlush false;
   CallFlush false;
   Resume 0;
   Resume 1;
   CallInfo sample_amb "b" None;
   FetchResolves 0 200 "OK";
   FetchResolves 1 200 "OK"].

Definition record_of (msg : string) : Log :=
  make_log sample_amb (this (boot sample_args "uuid-1")) (Some msg) LInfo None.

Definition logs_after (n : nat) : option (list Log) :=
  option_map (fun s => logs (this s))
    (run (firstn n overlap_run) (boot sample_args "uuid-1")).

Definition is_flush_task (t : Task) : bool :=
  match t with
  | FlushAwaitPrevious _ _ | FlushAwaitCurrent _ _ => true
  | _ => false
  end.

(** What holds of a logger in local development mode from its construction
    on: the buffer is empty, no request was made, no [doFlush] is
    suspended. *)
Definition local_dev_inv (s : Sys) : Prop :=
  isLocalDev (this s) = true
  /\ logs (this s) = []
  /\ requests (host s) = []
  /\ forallb is_flush_task (tasks (host s)) = true.

(** ** Auxiliary definitions for the properties beyond the claims *)

(** The fields the constructor sets and no method assigns. *)
Definition config (e : EdgeLogger)
    : option ExecutionContext * string * string * option string * string
      * Z * Z * string * bool :=
  (ctx e, apiKey e, dataset e, service e, requestId e, flushAfterMs e,
   flushAfterLogs e, apiURL e, isLocalDev e).

(** At most one timer is live, and it is the one [flushTimeout] names. *)
Definition timer_inv (s : Sys) : Prop :=
  match timers (host s) with
  | [] => True
  | [(t, _)] => flushTimeout (this s) = Some t
  | _ :: _ :: _ => False
  end.

Definition is_call_flush (ev : Event) : bool :=
  match ev with
  | CallFlush _ => true
  | _ => false
  end.

(** The request [doFlush] sends for the buffer [l] serialized as [text]. *)
Definition ingest_request (e : EdgeLogger) (text : option string) : Request :=
  {| url := apiURL e ++ "/datasets/" ++ dataset e ++ "/ingest";
     method := "POST";
     headers := [("Content-Type", "application/json");
                 ("Authorization", "Bearer " ++ apiKey e)];
     body := show_opt text |}.

Definition with_ctx (c : option ExecutionContext) (a : LoggerArgs)
    : LoggerArgs :=
  {| arg_ctx := c; arg_apiKey := arg_apiKey a; arg_dataset := arg_dataset a;
     arg_service := arg_service a; arg_apiURL := arg_apiURL a;
     arg_flushAfterMs := arg_flushAfterMs a;
     arg_flushAfterLogs := arg_flushAfterLogs a;
     arg_requestId := arg_requestId a; arg_isLocalDev := arg_isLocalDev a |}.

(** What holds of a logger without a context as long as the application
    does not call [flush] itself: nothing is suspended, nothing was
    requested, nothing was registered. *)
Definition no_ctx_inv (s : Sys) : Prop :=
  ctx (this s) = None
  /\ tasks (host s) = []
  /\ requests (host s) = []
  /\ registered (host s) = [].

(** A logger with a key and no context, and one whose buffer holds a
    BigInt. *)
Definition no_ctx_sys : Sys := boot (with_ctx None sample_args) "uuid-1".


(** The value the caller's fields give a key, or [dflt] when they have no
    such key. *)
Definition field_or (k : string) (data : option JsObject) (dflt : JsVal)
    : JsVal :=
  match data with
  | Some d =>
      match obj_lookup k (enumerable d) with
      | Some v => v
      | None => dflt
      end
  | None => dflt
  end.

(** What the logger itself puts under each key of a record. *)
Definition own_field (amb : Ambient) (e : EdgeLogger)
    (message : option string) (level : LogLevel) (data : option JsObject)
    (k : string) : JsVal :=
  if String.eqb k "message" then opt_str message
  else if String.eqb k "level" then
    js_or (data_level data) (JStr (level_name level))
  else if String.eqb k "traceId" then opt_str (traceId amb)
  else if String.eqb k "_time" then JStr (now amb)
  else if String.eqb k "service" then opt_str (service e)
  else if String.eqb k "requestId" then JStr (requestId e)
  else JUndefined.

(** The line of lines 76-78 written out, to compare [local_dev_line] with:
    the colour of the level and its name, grey, the request id between
    dashes, the reset code and the message. *)
Definition expected_local_dev_line (rid : string) (level : LogLevel)
    (message : option string) : string :=
  String (ascii_of_nat 27)
    match level with
    | LInfo => "[32minfo"
    | LWarning => "[33mwarning"
    | LError => "[31merror"
    | LDebug => "[35mdebug"
    end
  ++ String (ascii_of_nat 27) "[90m - " ++ rid ++ " - "
  ++ String (ascii_of_nat 27) "[0m"
  ++ match message with Some m => m | None => "undefined" end.

(** The line of line 80 written out: grey, a space and the fields printed
    with an indentation of two, when there are fields and they print. *)
Definition expected_fields_lines (data : option JsObject) : list ConsoleLine :=
  match data with
  | None => []
  | Some d =>
      match JSON.stringify_indent2 (JObj (enumerable d)) with
      | Normal text =>
          [ConsoleLog (String (ascii_of_nat 27) "[90m " ++
                       match text with Some t => t | None => "undefined" end)]
      | Throw _ => []
      end
  end.

(** The [message] of each record in the buffer. *)
Definition messages (s : Sys) : list JsVal :=
  map (obj_get "message") (logs (this s)).

(** The [level] of each record in the buffer. *)
Definition levels (s : Sys) : list JsVal :=
  map (obj_get "level") (logs (this s)).

(** A logger without a context whose count threshold is one. *)
Definition no_ctx_threshold_sys : Sys :=
  boot (with_flushAfterLogs 1 (with_ctx None sample_args)) "uuid-1".

(** * Properties *)

(** ** Objects *)

Lemma obj_lookup_set_same (k : string) (v : JsVal) (o : Props) :
  obj_lookup k (obj_set k v o) = Some v.
Proof.
  induction o as [|[k' v'] rest IH]; simpl.
  - now rewrite String.eqb_refl.
  - destruct (String.eqb k k') eqn:E; simpl; rewrite E; auto.
Qed.

Lemma obj_lookup_set_other (k k' : string) (v : JsVal) (o : Props) :
  k <> k' -> obj_lookup k (obj_set k' v o) = obj_lookup k o.
Proof.
  intros Hne. induction o as [|[k0 v0] rest IH]; simpl.
  - destruct (String.eqb_spec k k'); congruence.
  - destruct (String.eqb_spec k' k0) as [->|Hk]; simpl.
    + destruct (String.eqb_spec k k0); congruence.
    + now rewrite IH.
Qed.

Lemma obj_lookup_spread_keys (k : string) (src : Props)
    (keys : list string) (o : Props) :
  obj_lookup k (obj_spread_keys src keys o) =
  if existsb (String.eqb k) keys then Some (obj_get k src)
  else obj_lookup k o.
Proof.
  unfold obj_spread_keys. revert o.
  induction keys as [|k0 keys IH]; intros o; simpl; [reflexivity|].
  rewrite IH. destruct (String.eqb_spec k k0) as [->|Hne]; simpl.
  - destruct (existsb (String.eqb k0) keys); auto.
    now rewrite obj_lookup_set_same.
  - destruct (existsb (String.eqb k) keys); auto.
    now apply obj_lookup_set_other.
Qed.

Lemma obj_lookup_keys (k : string) (o : Props) :
  existsb (String.eqb k) (map fst o) = is_some (obj_lookup k o).
Proof.
  induction o as [|[k' v'] rest IH]; simpl; [reflexivity|].
  destruct (String.eqb k k'); simpl; auto.
Qed.

(** A spread property wins over the literal's; the others stay. *)
Lemma obj_lookup_spread (k : string) (o src : Props) :
  obj_lookup k (obj_spread o src) =
  match obj_lookup k src with
  | Some v => Some v
  | None => obj_lookup k o
  end.
Proof.
  unfold obj_spread. rewrite obj_lookup_spread_keys, obj_lookup_keys.
  unfold obj_get. now destruct (obj_lookup k src).
Qed.

(** ** The record built by [_log] *)

(** The [level] of the record is the own enumerable [level] of the fields
    whenever they have one, whatever its value; otherwise it is what line
    87 resolved: a level the fields have out of reach of the spread when it
    is truthy, else the level of the method. *)
Lemma make_log_level (amb : Ambient) (e : EdgeLogger) (message : option string)
    (level : LogLevel) (data : option JsObject) :
  obj_get "level" (make_log amb e message level data) =
  match data with
  | Some d =>
      match obj_lookup "level" (enumerable d) with
      | Some v => v
      | None => js_or (obj_get "level" (hidden d)) (JStr (level_name level))
      end
  | None => JStr (level_name level)
  end.
Proof.
  unfold make_log, obj_get. rewrite obj_lookup_spread.
  destruct data as [d|]; simpl; [|reflexivity].
  unfold read. destruct (obj_lookup "level" (enumerable d)); reflexivity.
Qed.

(** The [message] of the record is the one the method passed, unless the
    fields carry an own enumerable [message]. *)
Lemma make_log_message (amb : Ambient) (e : EdgeLogger)
    (message : option string) (level : LogLevel) (data : option JsObject) :
  obj_get "message" (make_log amb e message level data) =
  match data with
  | Some d =>
      match obj_lookup "message" (enumerable d) with
      | Some v => v
      | None => opt_str message
      end
  | None => opt_str message
  end.
Proof.
  unfold make_log, obj_get. rewrite obj_lookup_spread.
  destruct data as [d|]; simpl; [|reflexivity].
  now destruct (obj_lookup "message" (enumerable d)).
Qed.

(** ** The [error] method *)

(** [JSON.stringify] returns when no BigInt and no cycle occurs in the
    value, at any indentation. *)
Lemma serialize_returns (v : JsVal) :
  unserializable v = false ->
  forall gap indent, exists o, JSON.serialize gap indent v = Normal o.
Proof.
  induction v as [| |b|n|n|str|l IH|l IH|m st|] using JsVal_deep_ind;
    intros Hb gap indent; simpl in *; try discriminate; eauto.
  - destruct b; eauto.
  - set (inner := indent ++ gap).
    assert (Hitems : exists parts,
      JSON.items (JSON.serialize gap inner) l = Normal parts).
    { clear -IH Hb. induction l as [|x rest IHl]; [simpl; eauto|].
      simpl in Hb. apply orb_false_iff in Hb as [Hx Hrest].
      inversion IH as [|? ? Px Prest]; subst. simpl.
      destruct (Px Hx gap inner) as [o ->].
      destruct (IHl Prest Hrest) as [parts ->]. eauto. }
    destruct Hitems as [parts ->]. eauto.
  - set (inner := indent ++ gap).
    set (colon := if String.eqb gap "" then ":" else ": ").
    assert (Hmem : exists parts,
      JSON.members (JSON.serialize gap inner) colon l = Normal parts).
    { clear -IH Hb. induction l as [|[k x] rest IHl]; [simpl; eauto|].
      simpl in Hb. apply orb_false_iff in Hb as [Hx Hrest].
      inversion IH as [|? ? Px Prest]; subst. simpl in *.
      destruct (Px Hx gap inner) as [o ->].
      destruct (IHl Prest Hrest) as [parts ->]. eauto. }
    destruct Hmem as [parts ->]. eauto.
Qed.

Lemma items_throws (ser : JsVal -> Completion (option string))
    (l : list JsVal) :
  Exists (fun x => raises (ser x) = true) l ->
  raises (JSON.items ser l) = true.
Proof.
  induction 1 as [x rest Hx|x rest _ IH]; simpl.
  - destruct (ser x); [discriminate|reflexivity].
  - destruct (ser x); [|reflexivity].
    destruct (JSON.items ser rest); [discriminate|reflexivity].
Qed.

Lemma members_throws (ser : JsVal -> Completion (option string))
    (colon : string) (l : list (string * JsVal)) :
  Exists (fun kv => raises (ser (snd kv)) = true) l ->
  raises (JSON.members ser colon l) = true.
Proof.
  induction 1 as [x rest Hx|x rest _ IH]; simpl.
  - destruct (ser (snd x)); [discriminate|reflexivity].
  - destruct (ser (snd x)); [|reflexivity].
    destruct (JSON.members ser colon rest); [discriminate|reflexivity].
Qed.

(** On the values of [JsVal], [JSON.stringify] throws exactly when the
    value holds a BigInt or a cycle. *)
Lemma serialize_raises (v : JsVal) (gap indent : string) :
  raises (JSON.serialize gap indent v) = unserializable v.
Proof.
  destruct (unserializable v) eqn:Hb.
  - revert gap indent.
    induction v as [| |b|n|n|str|l IH|l IH|m st|] using JsVal_deep_ind;
      intros gap indent; simpl in *; try discriminate; auto.
    + assert (H : raises (JSON.items (JSON.serialize gap (indent ++ gap)) l)
                  = true).
      { apply items_throws. apply existsb_exists in Hb as [x [Hin Hx]].
        apply Exists_exists. exists x. split; [assumption|].
        rewrite Forall_forall in IH. now apply IH. }
      destruct (JSON.items _ l); [discriminate|reflexivity].
    + assert (H : raises (JSON.members (JSON.serialize gap (indent ++ gap))
                            (if String.eqb gap "" then ":" else ": ") l)
                  = true).
      { apply members_throws. apply existsb_exists in Hb as [x [Hin Hx]].
        apply Exists_exists. exists x. split; [assumption|].
        rewrite Forall_forall in IH. now apply IH. }
      destruct (JSON.members _ _ l); [discriminate|reflexivity].
  - destruct (serialize_returns v Hb gap indent) as [o ->]. reflexivity.
Qed.

Lemma append_empty (s : string) : s ++ "" = s.
Proof. induction s as [|c s IH]; simpl; [reflexivity|now rewrite IH]. Qed.

(** ** The constructor *)

(** C9: a request id that is missing, [null] or the empty string is replaced
    by a fresh UUID; a non-empty one is kept. *)
Theorem constructor_requestId (args : LoggerArgs) (uuid : string) :
  (arg_requestId args = None \/ arg_requestId args = Some None
   \/ arg_requestId args = Some (Some "") ->
   requestId (constructor args uuid) = uuid)
  /\ (forall r, arg_requestId args = Some (Some r) -> r <> "" ->
      requestId (constructor args uuid) = r).
Proof.
  split.
  - intros [H|[H|H]]; simpl; now rewrite H.
  - intros r H Hr. simpl. rewrite H.
    destruct (String.eqb_spec r ""); congruence.
Qed.

Lemma constructor_requestId_witness :
  requestId (constructor (with_requestId (Some (Some "")) sample_args) "uuid-1")
  = "uuid-1"
  /\ requestId (constructor (with_requestId (Some None) sample_args) "uuid-1")
  = "uuid-1"
  /\ requestId (constructor sample_args "uuid-1") = "req-1".
Proof.
  split; [|split].
  - apply (proj1 (constructor_requestId _ _)). right. right. reflexivity.
  - apply (proj1 (constructor_requestId _ _)). right. left. reflexivity.
  - apply (proj2 (constructor_requestId sample_args "uuid-1") "req-1").
    + reflexivity.
    + discriminate.
Defined.

(** ** Frame properties of the scheduler and of [flush] *)

Ltac break_match :=
  match goal with
  | |- context [match ?x with _ => _ end] => destruct x eqn:?
  | |- context [if ?x then _ else _] => destruct x eqn:?
  end.

Ltac frame := intros; repeat (simpl; try break_match); simpl; auto.

Lemma scheduleFlush_logs (timeout : Z) (reset : bool) (s : Sys) :
  logs (this (scheduleFlush timeout reset s)) = logs (this s).
Proof. unfold scheduleFlush, setTimeout, clearTimeout. frame. Qed.

Lemma scheduleFlush_console (timeout : Z) (reset : bool) (s : Sys) :
  console (host (scheduleFlush timeout reset s)) = console (host s).
Proof. unfold scheduleFlush, setTimeout, clearTimeout. frame. Qed.

Lemma scheduleFlush_requests (timeout : Z) (reset : bool) (s : Sys) :
  requests (host (scheduleFlush timeout reset s)) = requests (host s).
Proof. unfold scheduleFlush, setTimeout, clearTimeout. frame. Qed.

Lemma flush_this (skip : bool) (s : Sys) : this (snd (flush skip s)) = this s.
Proof. unfold flush. frame. Qed.

Lemma flush_console (skip : bool) (s : Sys) :
  console (host (snd (flush skip s))) = console (host s).
Proof. unfold flush. frame. Qed.

Lemma flush_requests (skip : bool) (s : Sys) :
  requests (host (snd (flush skip s))) = requests (host s).
Proof. unfold flush. frame. Qed.

Lemma after_push_logs (s : Sys) :
  logs (this (snd (after_push s))) = logs (this s).
Proof.
  unfold after_push.
  destruct (Z.of_nat (List.length (logs (this s))) >=? flushAfterLogs (this s))%Z;
    [|apply scheduleFlush_logs].
  set (s1 := if is_some (flushTimeout (this s)) then _ else s).
  assert (H1 : logs (this s1) = logs (this s)).
  { subst s1. destruct (is_some _); [apply scheduleFlush_logs|reflexivity]. }
  destruct (ctx (this s1)); [|assumption].
  destruct (flush true s1) as [p s2] eqn:Hf. simpl.
  change s2 with (snd (p, s2)). rewrite <- Hf, flush_this. assumption.
Qed.

Lemma after_push_console (s : Sys) :
  console (host (snd (after_push s))) = console (host s).
Proof.
  unfold after_push.
  destruct (Z.of_nat (List.length (logs (this s))) >=? flushAfterLogs (this s))%Z;
    [|apply scheduleFlush_console].
  set (s1 := if is_some (flushTimeout (this s)) then _ else s).
  assert (H1 : console (host s1) = console (host s)).
  { subst s1. destruct (is_some _); [apply scheduleFlush_console|reflexivity]. }
  destruct (ctx (this s1)); [|assumption].
  destruct (flush true s1) as [p s2] eqn:Hf. simpl.
  change s2 with (snd (p, s2)). rewrite <- Hf, flush_console. assumption.
Qed.

Lemma after_push_requests (s : Sys) :
  requests (host (snd (after_push s))) = requests (host s).
Proof.
  unfold after_push.
  destruct (Z.of_nat (List.length (logs (this s))) >=? flushAfterLogs (this s))%Z;
    [|apply scheduleFlush_requests].
  set (s1 := if is_some (flushTimeout (this s)) then _ else s).
  assert (H1 : requests (host s1) = requests (host s)).
  { subst s1. destruct (is_some _); [apply scheduleFlush_requests|reflexivity]. }
  destruct (ctx (this s1)); [|assumption].
  destruct (flush true s1) as [p s2] eqn:Hf. simpl.
  change s2 with (snd (p, s2)). rewrite <- Hf, flush_requests. assumption.
Qed.

(** Outside local development a record call whose fallback print returns
    appends the record of [make_log] to the buffer, and prints nothing but
    that fallback line. *)
Lemma _log_appends (amb : Ambient) (message : option string)
    (level : LogLevel) (data : option JsObject) (s s1 : Sys) :
  isLocalDev (this s) = false ->
  fallback_print (make_log amb (this s) message level data) s = Normal s1 ->
  logs (this (snd (_log amb message level data s)))
    = (logs (this s) ++ [make_log amb (this s) message level data])%list
  /\ console (host (snd (_log amb message level data s))) = console (host s1)
  /\ requests (host (snd (_log amb message level data s)))
     = requests (host s).
Proof.
  intros Hdev Hfb. unfold _log. rewrite Hdev, Hfb.
  rewrite after_push_logs, after_push_console, after_push_requests. simpl.
  assert (Hs1 : this s1 = this s /\ requests (host s1) = requests (host s)).
  { unfold fallback_print in Hfb.
    destruct (_ || _); [|inversion Hfb; auto].
    destruct (JSON.stringify _); inversion Hfb; auto. }
  destruct Hs1 as [-> ->]. auto.
Qed.

Lemma unawaited_keeps (r : Settled * Sys) :
  this (unawaited r) = this (snd r)
  /\ requests (host (unawaited r)) = requests (host (snd r))
  /\ timers (host (unawaited r)) = timers (host (snd r))
  /\ tasks (host (unawaited r)) = tasks (host (snd r))
  /\ console (host (unawaited r)) = console (host (snd r))
  /\ registered (host (unawaited r)) = registered (host (snd r))
  /\ settled (host (unawaited r)) = settled (host (snd r))
  /\ next_promise (host (unawaited r)) = next_promise (host (snd r)).
Proof. destruct r as [[|err] s0]; simpl; repeat split. Qed.

Lemma unawaited_this_console (r : Settled * Sys) :
  this (unawaited r) = this (snd r)
  /\ console (host (unawaited r)) = console (host (snd r)).
Proof. destruct r as [[|err] s0]; simpl; split; reflexivity. Qed.

(** The line of lines 76-78, character by character. *)
Lemma local_dev_line_expected (e : EdgeLogger) (message : option string)
    (level : LogLevel) :
  local_dev_line e message level
  = expected_local_dev_line (requestId e) level message.
Proof. destruct level, message; reflexivity. Qed.

(** In local development a record call prints the line of the message,
    then the fields when there are some and they print, and leaves the
    buffer as it is. *)
Lemma _log_local_dev_prints (amb : Ambient) (message : option string)
    (level : LogLevel) (data : option JsObject) (s : Sys) :
  isLocalDev (this s) = true ->
  console (host (snd (_log amb message level data s)))
  = (console (host s)
       ++ ConsoleLog (expected_local_dev_line (requestId (this s)) level
                        message) :: expected_fields_lines data)%list
  /\ logs (this (snd (_log amb message level data s))) = logs (this s).
Proof.
  intros Hdev. unfold _log, expected_fields_lines. rewrite Hdev.
  rewrite local_dev_line_expected.
  destruct data as [d|]; [|split; reflexivity].
  destruct (JSON.stringify_indent2 (JObj (enumerable d))) as [text|err];
    simpl; [|split; reflexivity].
  rewrite <- app_assoc. simpl. destruct text; split; reflexivity.
Qed.

(** ** Record methods *)

(** C5: the level of a record is the own enumerable [level] of the fields
    when they have one, whatever its value, and otherwise
    [(data?.level) || level] of line 87, where [data?.level] is read
    through the prototype chain.  At the fields [{ level: null }] line 87
    resolves the level to the one of the method, which is also what
    [fields.level ?? level] gives, but the spread of line 92 writes the
    [null] of the fields over it, and [null] is the level of the record
    that is built and buffered.  A truthy level the fields inherit is the
    level of the record. *)
Theorem spread_overrides_resolved_level (amb : Ambient) (e : EdgeLogger)
    (message : option string) (level : LogLevel) :
  (forall data,
     obj_get "level" (make_log amb e message level data)
     = field_or "level" data
         (js_or (data_level data) (JStr (level_name level))))
  /\ js_or (data_level (Some (plain [("level", JNull)])))
       (JStr (level_name level))
    = JStr (level_name level)
  /\ js_nullish (data_level (Some (plain [("level", JNull)])))
       (JStr (level_name level))
    = JStr (level_name level)
  /\ obj_get "level"
       (make_log amb e message level (Some (plain [("level", JNull)])))
    = JNull
  /\ (forall own v,
        obj_lookup "level" own = None -> truthy v = true ->
        obj_get "level"
          (make_log amb e message level
             (Some {| enumerable := own; hidden := [("level", v)] |}))
        = v)
  /\ (forall s s1,
        isLocalDev (this s) = false ->
        fallback_print
          (make_log amb (this s) message level
             (Some (plain [("level", JNull)]))) s = Normal s1 ->
        exists r,
          logs (this (snd (_log amb message level
                             (Some (plain [("level", JNull)])) s)))
          = (logs (this s) ++ [r])%list
          /\ obj_get "level" r = JNull).
Proof.
  split; [|split; [reflexivity|]; split; [reflexivity|];
           split; [reflexivity|]; split].
  - intros data. rewrite make_log_level. unfold field_or, data_level, read.
    destruct data as [d|]; [|reflexivity].
    destruct (obj_lookup "level" (enumerable d)); reflexivity.
  - intros own v Hown Hv. rewrite make_log_level. simpl.
    rewrite Hown. unfold js_or, obj_get. simpl. now rewrite Hv.
  - intros s s1 Hdev Hfb. eexists. split.
    + exact (proj1 (_log_appends amb message level _ s s1 Hdev Hfb)).
    + reflexivity.
Qed.

(** C10, as the code has it: [log] and [info] do the same thing on every
    state, a [_log] at level [info] whose promise is dropped.  Outside
    local development that call appends the record of the message and the
    fields, in local development it prints the line of the message at
    level [info], then the fields.  The level of the record is [info] when
    the fields have no own level and [data?.level] is falsy, and it is
    [data?.level] when that is truthy. *)
Theorem log_same_as_info (amb : Ambient) (msg : string)
    (data : option JsObject) (s : Sys) :
  log amb msg data s = info amb msg data s
  /\ (isLocalDev (this s) = false ->
      forall s1,
        fallback_print (make_log amb (this s) (Some msg) LInfo data) s
        = Normal s1 ->
        logs (this (log amb msg data s))
        = (logs (this s) ++ [make_log amb (this s) (Some msg) LInfo data])%list
        /\ logs (this (info amb msg data s))
           = (logs (this s) ++ [make_log amb (this s) (Some msg) LInfo data])%list)
  /\ (isLocalDev (this s) = true ->
      console (host (log amb msg data s))
      = (console (host s)
           ++ ConsoleLog (expected_local_dev_line (requestId (this s)) LInfo
                            (Some msg)) :: expected_fields_lines data)%list
      /\ logs (this (log amb msg data s)) = logs (this s))
  /\ (obj_lookup "level" (spread_of data) = None ->
      truthy (data_level data) = false ->
      obj_get "level" (make_log amb (this s) (Some msg) LInfo data)
      = JStr "info")
  /\ (truthy (data_level data) = true ->
      obj_get "level" (make_log amb (this s) (Some msg) LInfo data)
      = data_level data).
Proof.
  split; [reflexivity|]. split; [|split; [|split]].
  - intros Hdev s1 Hfb. unfold log, info.
    rewrite (proj1 (unawaited_this_console _)).
    split; exact (proj1 (_log_appends amb (Some msg) LInfo data s s1 Hdev Hfb)).
  - intros Hdev. unfold log.
    destruct (unawaited_this_console (_log amb (Some msg) LInfo data s))
      as [-> ->].
    now apply _log_local_dev_prints.
  - intros Hown Hfalsy. rewrite make_log_level.
    destruct data as [d|]; [|reflexivity]. simpl in *. unfold read in Hfalsy.
    rewrite Hown in *. unfold js_or. now rewrite Hfalsy.
  - intros Htrue. rewrite make_log_level.
    destruct data as [d|]; [|discriminate]. simpl in *. unfold read in *.
    destruct (obj_lookup "level" (enumerable d)); [reflexivity|].
    unfold js_or. now rewrite Htrue.
Qed.

Lemma log_same_as_info_witness :
  logs (this (log sample_amb "m" None (boot sample_args "uuid-1")))
  = [make_log sample_amb (this (boot sample_args "uuid-1")) (Some "m") LInfo
       None]
  /\ obj_get "level"
       (make_log sample_amb (this (boot sample_args "uuid-1")) (Some "m")
          LInfo None) = JStr "info"
  /\ obj_get "level"
       (make_log sample_amb (this (boot sample_args "uuid-1")) (Some "m")
          LInfo (Some (plain [("level", JStr "debug")]))) = JStr "debug".
Proof.
  split; [|split].
  - exact (proj1 (proj1 (proj2 (log_same_as_info sample_amb "m" None
                                  (boot sample_args "uuid-1")))
                    eq_refl _ eq_refl)).
  - exact (proj1 (proj2 (proj2 (proj2 (log_same_as_info sample_amb "m" None
                                         (boot sample_args "uuid-1")))))
             eq_refl eq_refl).
  - exact (proj2 (proj2 (proj2 (proj2 (log_same_as_info sample_amb "m"
             (Some (plain [("level", JStr "debug")]))
             (boot sample_args "uuid-1"))))) eq_refl).
Defined.

(** C10, the claim as stated fails: [log] with the fields
    [{ level: 'debug' }] appends a record whose level is [debug], not
    [info]; [info] does the same. *)
Lemma log_with_level_field_is_not_info :
  levels (log sample_amb "m" (Some (plain [("level", JStr "debug")]))
            (boot sample_args "uuid-1")) = [JStr "debug"]
  /\ levels (info sample_amb "m" (Some (plain [("level", JStr "debug")]))
               (boot sample_args "uuid-1")) = [JStr "debug"].
Proof. split; reflexivity. Qed.

(** C8, as the code has it: an Error gives its message, followed by a colon,
    a space and the stack when the stack is a non-empty string; a string is
    the message as it is; for any other value the message is what
    [JSON.stringify] returns, which is [undefined] for [undefined].  The
    call raises when computing the message throws, as [JSON.stringify]
    does on a BigInt and on a circular structure, and returns otherwise;
    then [_log] runs with that message at level [error]: outside local
    development the record is appended and carries the message unless the
    fields have an own [message], in local development the line of the
    message is printed. *)
Theorem error_message_by_kind (amb : Ambient) (data : option JsObject)
    (s : Sys) :
  (forall m st,
     error_message (JError m (Some st))
     = Normal (Some (if String.eqb st "" then m else m ++ ": " ++ st)))
  /\ (forall m, error_message (JError m None) = Normal (Some m))
  /\ (forall str, error_message (JStr str) = Normal (Some str))
  /\ (forall v,
        error_message v =
        match v with
        | JError _ _ | JStr _ => error_message v
        | _ => JSON.stringify v
        end)
  /\ error_message JUndefined = Normal None
  /\ (forall v err, error_message v = Throw err ->
      error amb v data s = Throw err)
  /\ (forall n, raises (error amb (JBigInt n) data s) = true)
  /\ raises (error amb JCyclic data s) = true
  /\ (forall v m, error_message v = Normal m ->
      exists s',
        error amb v data s = Normal s'
        /\ (isLocalDev (this s) = false ->
            forall s1,
              fallback_print (make_log amb (this s) m LError data) s
              = Normal s1 ->
              logs (this s')
              = (logs (this s) ++ [make_log amb (this s) m LError data])%list
              /\ obj_get "message" (make_log amb (this s) m LError data)
                 = field_or "message" data (opt_str m))
        /\ (isLocalDev (this s) = true ->
            console (host s')
            = (console (host s)
                 ++ ConsoleLog (expected_local_dev_line (requestId (this s))
                                  LError m)
                    :: expected_fields_lines data)%list
            /\ logs (this s') = logs (this s))).
Proof.
  split; [|split; [|split; [|split; [|split; [|split; [|split; [|split]]]]]]].
  - intros m st. simpl. destruct (String.eqb st ""); [|reflexivity].
    now rewrite append_empty.
  - intros m. simpl. now rewrite append_empty.
  - reflexivity.
  - intros v. now destruct v.
  - reflexivity.
  - intros v err H. unfold error. now rewrite H.
  - reflexivity.
  - reflexivity.
  - intros v m Hm. unfold error. rewrite Hm. eexists. split; [reflexivity|].
    destruct (unawaited_this_console (_log amb m LError data s)) as [Ht Hc].
    split.
    + intros Hdev s1 Hfb. rewrite Ht.
      split; [exact (proj1 (_log_appends amb m LError data s s1 Hdev Hfb))|].
      rewrite make_log_message. unfold field_or. reflexivity.
    + intros Hdev. rewrite Ht, Hc. now apply _log_local_dev_prints.
Qed.

Lemma error_message_by_kind_witness :
  messages (match error sample_amb (JError "boom" (Some "at f"))  None
                    (boot sample_args "uuid-1") with
            | Normal s' => s'
            | Throw _ => boot sample_args "uuid-1"
            end) = [JStr "boom: at f"].
Proof.
  destruct (proj2 (proj2 (proj2 (proj2 (proj2 (proj2 (proj2 (proj2
              (error_message_by_kind sample_amb None
                 (boot sample_args "uuid-1")))))))))
              (JError "boom" (Some "at f")) (Some "boom: at f") eq_refl)
    as [s' [Hret [Hbuf _]]].
  rewrite Hret. unfold messages.
  rewrite (proj1 (Hbuf eq_refl _ eq_refl)). reflexivity.
Defined.

(** C8, the claim as stated fails: [error(10n)] raises the TypeError of
    [JSON.stringify], and [error(new Error('boom'), { message: 'other' })]
    appends a record whose message is the [message] of the fields. *)
Lemma error_raises_or_is_overridden :
  error sample_amb (JBigInt 10) None (boot sample_args "uuid-1")
  = Throw "TypeError: Do not know how to serialize a BigInt"
  /\ messages (match error sample_amb (JError "boom" None)
                       (Some (plain [("message", JStr "other")]))
                       (boot sample_args "uuid-1") with
               | Normal s' => s'
               | Throw _ => boot sample_args "uuid-1"
               end) = [JStr "other"].
Proof. split; reflexivity. Qed.

(** ** Local development mode *)

Lemma quiet_refl (s : Sys) : quiet s s.
Proof. unfold quiet. repeat split. Qed.

Lemma quiet_report (e : string) (s s' : Sys) :
  quiet s s' -> quiet s (on_host (report e) s').
Proof. unfold quiet. simpl. auto. Qed.

Lemma quiet_unawaited (s : Sys) (r : Settled * Sys) :
  quiet s (snd r) -> quiet s (unawaited r).
Proof.
  unfold unawaited. destruct r as [[|err] s']; simpl; [auto|].
  apply quiet_report.
Qed.

Lemma _log_local_dev_quiet (amb : Ambient) (message : option string)
    (level : LogLevel) (data : option JsObject) (s : Sys) :
  isLocalDev (this s) = true ->
  quiet s (snd (_log amb message level data s)).
Proof.
  intros Hdev. unfold _log. rewrite Hdev.
  destruct data as [d|]; [|unfold quiet; simpl; repeat split].
  destruct (JSON.stringify_indent2 (JObj (enumerable d)));
    unfold quiet; simpl; repeat split.
Qed.

Lemma local_dev_only_prints_aux (ev : Event) (s s' : Sys) :
  isLocalDev (this s) = true ->
  is_record_call ev = true -> step ev s = Some s' -> quiet s s'.
Proof.
  intros Hdev Hev Hstep.
  destruct ev; try discriminate; simpl in Hstep.
  - inversion Hstep; subst. unfold log.
    apply quiet_unawaited. now apply _log_local_dev_quiet.
  - inversion Hstep; subst. unfold info.
    apply quiet_unawaited. now apply _log_local_dev_quiet.
  - inversion Hstep; subst. unfold warn.
    apply quiet_unawaited. now apply _log_local_dev_quiet.
  - unfold error in Hstep. destruct (error_message msg); [|discriminate].
    inversion Hstep; subst.
    apply quiet_unawaited. now apply _log_local_dev_quiet.
  - inversion Hstep; subst. unfold debug.
    apply quiet_unawaited. now apply _log_local_dev_quiet.
Qed.



(** ** The console fallback *)

(** The record depends on the class through [service] and [requestId]
    only. *)
Lemma make_log_same_fields (amb : Ambient) (e e' : EdgeLogger)
    (message : option string) (level : LogLevel) (data : option JsObject) :
  service e' = service e -> requestId e' = requestId e ->
  make_log amb e' message level data = make_log amb e message level data.
Proof. intros Hs Hr. unfold make_log. now rewrite Hs, Hr. Qed.

(** C7, as the code has it: without an API key or without a context, and
    when [JSON.stringify] returns on the record, the call prints that text
    and appends the record, the same record the buffer gets when both are
    configured. *)
Theorem fallback_prints_and_appends (amb : Ambient) (message : option string)
    (level : LogLevel) (data : option JsObject) (s : Sys)
    (text : option string) :
  isLocalDev (this s) = false ->
  apiKey (this s) = "" \/ ctx (this s) = None ->
  JSON.stringify (JObj (make_log amb (this s) message level data))
    = Normal text ->
  console (host (snd (_log amb message level data s)))
    = (console (host s) ++ [ConsoleLog (show_opt text)])%list
  /\ logs (this (snd (_log amb message level data s)))
     = (logs (this s) ++ [make_log amb (this s) message level data])%list
  /\ (forall s_ok,
        isLocalDev (this s_ok) = false ->
        apiKey (this s_ok) <> "" -> ctx (this s_ok) <> None ->
        logs (this s_ok) = logs (this s) ->
        service (this s_ok) = service (this s) ->
        requestId (this s_ok) = requestId (this s) ->
        logs (this (snd (_log amb message level data s_ok)))
        = logs (this (snd (_log amb message level data s)))).
Proof.
  intros Hdev Hcfg Htext.
  assert (Hfb : fallback_print (make_log amb (this s) message level data) s
                = Normal (console_log (show_opt text) s)).
  { unfold fallback_print. rewrite Htext.
    destruct Hcfg as [-> | ->]; simpl; [reflexivity|].
    now rewrite orb_true_r. }
  destruct (_log_appends amb message level data s _ Hdev Hfb)
    as [Hlogs [Hcons _]].
  split; [exact Hcons|]. split; [exact Hlogs|].
  intros s_ok Hdev' Hkey Hctx Hl Hsv Hrid.
  assert (Hfb' : fallback_print (make_log amb (this s_ok) message level data)
                   s_ok = Normal s_ok).
  { unfold fallback_print.
    destruct (String.eqb_spec (apiKey (this s_ok)) ""); [contradiction|].
    destruct (ctx (this s_ok)); [reflexivity|contradiction]. }
  destruct (_log_appends amb message level data s_ok _ Hdev' Hfb')
    as [Hlogs' _].
  rewrite Hlogs', Hlogs, Hl. f_equal. f_equal.
  now apply make_log_same_fields.
Qed.

Lemma fallback_prints_and_appends_witness :
  logs (this (snd (_log sample_amb (Some "hello") LInfo None no_key_sys)))
  = [make_log sample_amb (this no_key_sys) (Some "hello") LInfo None].
Proof.
  apply (proj1 (proj2
    (fallback_prints_and_appends sample_amb (Some "hello") LInfo None
       no_key_sys _ eq_refl (or_introl eq_refl) eq_refl))).
Defined.

(** C7, the claim as stated fails: without an API key, [info] with a BigInt
    among the fields prints nothing and appends nothing, the TypeError of
    [JSON.stringify] ends [_log] before line 100; with a key the same call
    appends the record. *)
Lemma fallback_bigint_drops_record :
  let data := Some (plain [("n", JBigInt 10)]) in
  logs (this (info sample_amb "x" data no_key_sys)) = []
  /\ console (host (info sample_amb "x" data no_key_sys)) = []
  /\ unhandled (host (info sample_amb "x" data no_key_sys))
     = ["TypeError: Do not know how to serialize a BigInt"]
  /\ logs (this (info sample_amb "x" data (boot sample_args "uuid-1")))
     = [make_log sample_amb (this (boot sample_args "uuid-1")) (Some "x")
          LInfo data].
Proof. repeat split. Qed.

(** ** The count trigger *)

Lemma fallback_print_frame (log : Log) (s s1 : Sys) :
  fallback_print log s = Normal s1 ->
  this s1 = this s
  /\ registered (host s1) = registered (host s)
  /\ tasks (host s1) = tasks (host s)
  /\ next_promise (host s1) = next_promise (host s)
  /\ cleared (host s1) = cleared (host s).
Proof.
  unfold fallback_print. intros H.
  destruct (_ || _); [|inversion H; auto 6].
  destruct (JSON.stringify _); inversion H; simpl; auto 6.
Qed.

(** C4: with a context, a record call that appends and brings the buffer to
    the count threshold registers with [ctx.waitUntil], inside the call, the
    promise of a [flush({ skipIfInProgress: true })]: that call is skipped
    when a flush is in flight and is suspended at its first [await]
    otherwise.  A timer pending at that moment is cleared before the
    registration. *)
Theorem count_threshold_registers_flush (amb : Ambient)
    (message : option string) (level : LogLevel) (data : option JsObject)
    (s s1 : Sys) (c : ExecutionContext) :
  isLocalDev (this s) = false ->
  ctx (this s) = Some c ->
  fallback_print (make_log amb (this s) message level data) s = Normal s1 ->
  (Z.of_nat (S (List.length (logs (this s)))) >= flushAfterLogs (this s))%Z ->
  let r := _log amb message level data s in
  let p := next_promise (host s) in
  fst r = Fulfilled
  /\ logs (this (snd r))
     = (logs (this s) ++ [make_log amb (this s) message level data])%list
  /\ registered (host (snd r)) = (registered (host s) ++ [p])%list
  /\ match flushPromise (this s) with
     | Some _ =>
         promise_state p (host (snd r)) = Some Fulfilled
         /\ tasks (host (snd r)) = tasks (host s)
     | None =>
         tasks (host (snd r)) = FlushAwaitPrevious p None :: tasks (host s)
     end
  /\ match flushTimeout (this s) with
     | Some t =>
         cleared (host (snd r)) = (cleared (host s) ++ [t])%list
         /\ exists mid,
              journal (host (snd r))
              = (journal (host s1) ++ Cleared t :: mid ++ [RegisteredWork p])%list
     | None =>
         cleared (host (snd r)) = cleared (host s)
         /\ journal (host (snd r))
            = (journal (host s1) ++ [RegisteredWork p])%list
     end.
Proof.
  intros Hdev Hctx Hfb Hcount r p. subst r p.
  destruct (fallback_print_frame _ _ _ Hfb) as [Hthis [Hreg [Htasks [Hnp Hcl]]]].
  assert (Hb : (Z.of_nat (S (List.length (logs (this s))))
                >=? flushAfterLogs (this s))%Z = true).
  { apply Z.geb_le. lia. }
  unfold _log. rewrite Hdev, Hfb. unfold after_push. simpl.
  rewrite Hthis, length_app. simpl. rewrite Nat.add_1_r, Hb.
  rewrite <- Hreg, <- Htasks, <- Hnp, <- Hcl.
  clear Hfb Hb Hcount Hdev Hreg Htasks Hnp Hcl.
  destruct s1 as [e h]. simpl in Hthis. subst e.
  destruct (this s) as [cx ak ds sv lg rid ft fp ms cnt au dev].
  simpl in Hctx. subst cx. simpl.
  destruct ft as [t|], fp as [d|]; simpl;
    unfold promise_state; simpl; rewrite ?Nat.eqb_refl;
    repeat split; try reflexivity.
  - exists []. now rewrite <- app_assoc.
  - exists [Armed (next_timer h)]. now rewrite <- !app_assoc.
Qed.

Lemma count_threshold_registers_flush_witness :
  registered (host (snd (_log sample_amb (Some "b") LInfo None threshold_sys)))
  = [0]
  /\ cleared (host (snd (_log sample_amb (Some "b") LInfo None threshold_sys)))
    = [1].
Proof.
  pose proof (count_threshold_registers_flush sample_amb (Some "b") LInfo None
                threshold_sys threshold_sys WorkerContext
                eq_refl eq_refl eq_refl) as H.
  assert (Hc : (Z.of_nat (S (List.length (logs (this threshold_sys))))
                >= flushAfterLogs (this threshold_sys))%Z).
  { vm_compute. discriminate. }
  destruct (H Hc) as [_ [_ [Hreg [_ Hclr]]]].
  split; [exact Hreg|exact (proj1 Hclr)].
Defined.

(** C4, the claim as stated fails on a logger built without a context:
    outside local development, with a count threshold of one, the first
    record call appends its record and reaches the threshold, then
    [this.ctx.waitUntil] of line 107 throws before [flush] is called: the
    promise of the call is rejected, nothing is registered and no flush is
    started. *)
Lemma count_threshold_without_context_registers_nothing :
  isLocalDev (this no_ctx_threshold_sys) = false
  /\ ctx (this no_ctx_threshold_sys) = None
  /\ flushAfterLogs (this no_ctx_threshold_sys) = 1%Z
  /\ logs (this (snd (_log sample_amb (Some "a") LInfo None
                        no_ctx_threshold_sys)))
     = [make_log sample_amb (this no_ctx_threshold_sys) (Some "a") LInfo None]
  /\ fst (_log sample_amb (Some "a") LInfo None no_ctx_threshold_sys)
     = Rejected "TypeError: Cannot read properties of undefined"
  /\ registered (host (snd (_log sample_amb (Some "a") LInfo None
                              no_ctx_threshold_sys))) = []
  /\ tasks (host (snd (_log sample_amb (Some "a") LInfo None
                         no_ctx_threshold_sys))) = []
  /\ requests (host (snd (_log sample_amb (Some "a") LInfo None
                            no_ctx_threshold_sys))) = [].
Proof. repeat split. Qed.

(** ** Delivery *)

(** C2: take any state in which a [doFlush] waits for the answer to its
    request.  If [fetch] rejects, or resolves with a status outside 200-299
    whatever then happens to the body, the class is left as it was, buffer
    included; exactly one line, the failure line, is printed; [doFlush]
    ends normally, so a [flush] that awaits it resumes, clears the in-flight
    handle and fulfils its own promise with the buffer still unchanged. *)
Theorem failed_delivery_keeps_buffer (s : Sys) (req d n : nat)
    (others : list Task) (o : Delivery) :
  take_task (awaits_fetch req) (tasks (host s))
    = Some (DoFlushAwaitFetch d n req, others) ->
  delivery_failed o = true ->
  exists s1,
    run (delivery_events req o) s = Some s1
    /\ this s1 = this s
    /\ console (host s1) = (console (host s) ++ [failure_line o])%list
    /\ requests (host s1) = requests (host s)
    /\ promise_state d (host s1) = Some Fulfilled
    /\ forall p,
         exists s2,
           resume_flush (FlushAwaitCurrent p d) s1 = Some s2
           /\ logs (this s2) = logs (this s)
           /\ flushPromise (this s2) = None
           /\ promise_state p (host s2) = Some Fulfilled
           /\ console (host s2) = console (host s1).
Proof.
  intros Htask Hfail.
  destruct o as [err|status statusText [text|err]]; simpl in Hfail |- *;
    unfold with_task; rewrite Htask; simpl.
  - eexists. split; [reflexivity|]. unfold promise_state. simpl.
    rewrite Nat.eqb_refl. repeat split.
    intros p. eexists. split; [reflexivity|]. simpl.
    rewrite Nat.eqb_refl. repeat split.
  - unfold doFlush_response. apply negb_true_iff in Hfail. rewrite Hfail.
    unfold with_task. simpl. rewrite Nat.eqb_refl. simpl.
    eexists. split; [reflexivity|]. unfold promise_state. simpl.
    rewrite Nat.eqb_refl. repeat split.
    intros p. eexists. split; [reflexivity|]. simpl.
    rewrite Nat.eqb_refl. repeat split.
  - unfold doFlush_response. apply negb_true_iff in Hfail. rewrite Hfail.
    unfold with_task. simpl. rewrite Nat.eqb_refl. simpl.
    eexists. split; [reflexivity|]. unfold promise_state. simpl.
    rewrite Nat.eqb_refl. repeat split.
    intros p. eexists. split; [reflexivity|]. simpl.
    rewrite Nat.eqb_refl. repeat split.
Qed.

Lemma failed_delivery_keeps_buffer_witness :
  exists s1,
    run (delivery_events 0 (Responded 500 "Internal Server Error"
                              (BodyText "down"))) in_flight_sys = Some s1
    /\ this s1 = this in_flight_sys
    /\ console (host s1)
       = [ConsoleLog
            "Axiom failed to ingest logs: 500 Internal Server Error down"].
Proof.
  destruct (failed_delivery_keeps_buffer in_flight_sys 0 1 1 _
              (Responded 500 "Internal Server Error" (BodyText "down"))
              eq_refl eq_refl) as [s1 [Hrun [Hthis [Hcons _]]]].
  exists s1. split; [exact Hrun|]. split; [exact Hthis|exact Hcons].
Defined.

(** ** The in-flight guard *)

(** C3: while the in-flight handle is set, [flush({ skipIfInProgress: true })]
    returns an already fulfilled promise and touches nothing else: the
    class, the requests, the suspended bodies, the timers, the registered
    work, the console and the journal are as before.  Hence, from an idle
    logger with a non-empty buffer that serializes, a first such call that
    has started its delivery, a second one made while the first is in
    flight, the answer of the network and the end of the first call make
    exactly one request in all. *)
Theorem flush_skipped_while_in_flight :
  (forall s d,
     flushPromise (this s) = Some d ->
     this (snd (flush true s)) = this s
     /\ requests (host (snd (flush true s))) = requests (host s)
     /\ tasks (host (snd (flush true s))) = tasks (host s)
     /\ timers (host (snd (flush true s))) = timers (host s)
     /\ registered (host (snd (flush true s))) = registered (host s)
     /\ console (host (snd (flush true s))) = console (host s)
     /\ journal (host (snd (flush true s))) = journal (host s)
     /\ promise_state (fst (flush true s)) (host (snd (flush true s)))
        = Some Fulfilled)
  /\ (forall s logsBody o,
        flushPromise (this s) = None ->
        logs (this s) <> [] ->
        JSON.stringify (JArr (map JObj (logs (this s)))) = Normal logsBody ->
        let p := next_promise (host s) in
        let req := List.length (requests (host s)) in
        exists s1 s2,
          run [CallFlush true; Resume p; CallFlush true] s = Some s1
          /\ run (delivery_events req o ++ [Resume p]) s1 = Some s2
          /\ List.length (requests (host s1)) = S (List.length (requests (host s)))
          /\ requests (host s2) = requests (host s1)
          /\ flushPromise (this s2) = None).
Proof.
  split.
  - intros s d Hd. unfold flush, promise_state. rewrite Hd. simpl.
    rewrite Nat.eqb_refl. repeat split.
  - intros s logsBody o Hidle Hlogs Hbody p req. subst p req.
    destruct s as [e h]. simpl in *.
    unfold flush at 1. simpl. rewrite Hidle. simpl.
    unfold with_task. simpl. rewrite Nat.eqb_refl. simpl.
    unfold flush_start, doFlush. simpl.
    destruct (logs e) as [|l0 ls] eqn:Hl; [contradiction|].
    rewrite Hbody. simpl.
    eexists.
    destruct o as [err|status statusText [text|err]];
      try destruct (response_ok status) eqn:Hok;
      eexists; (split; [reflexivity|]);
      repeat (progress (simpl;
                        unfold with_task, promise_state, doFlush_response;
                        rewrite ?Nat.eqb_refl, ?Hok));
      (split; [reflexivity|]); simpl; rewrite length_app, Nat.add_1_r;
      repeat split.
Qed.

Lemma flush_skipped_while_in_flight_witness :
  requests (host (snd (flush true in_flight_sys)))
  = requests (host in_flight_sys)
  /\ exists s1 s2,
       run [CallFlush true; Resume 0; CallFlush true] buffered_sys = Some s1
       /\ run (delivery_events 0 (Responded 200 "OK" (BodyText "{}"))
                 ++ [Resume 0]) s1 = Some s2
       /\ List.length (requests (host s1)) = 1
       /\ requests (host s2) = requests (host s1)
       /\ flushPromise (this s2) = None.
Proof.
  split.
  - apply (proj1 flush_skipped_while_in_flight in_flight_sys 1 eq_refl).
  - refine (proj2 flush_skipped_while_in_flight buffered_sys _
              (Responded 200 "OK" (BodyText "{}")) eq_refl _ eq_refl).
    discriminate.
Defined.

(** ** Overlapping deliveries *)

(** The guard reads the handle, and the handle is only set when a call
    resumes from line 174: two calls made before either has resumed both
    deliver, even with [skipIfInProgress]. *)
Lemma skip_calls_before_resumption_both_deliver :
  option_map (fun s => List.length (requests (host s)))
    (run [CallFlush true; CallFlush true; Resume 0; Resume 1] buffered_sys)
  = Some 2.
Proof. reflexivity. Qed.


(** The same overlap in the usage of the README: the flush of the count
    trigger and the flush of the handler are called in the same turn and
    send the same record twice. *)
Lemma readme_usage_sends_twice :
  exists text,
    JSON.stringify (JArr [JObj (record_of "a")]) = Normal (Some text)
    /\ option_map (fun s => map body (requests (host s)))
         (run readme_run (boot (with_flushAfterLogs 1 sample_args) "uuid-1"))
       = Some [text; text].
Proof. eexists. split; reflexivity. Qed.

(** A successful answer removes as many records from the front of the
    buffer as the snapshot counted: when the buffer is the snapshot followed
    by later records, the later records are what is left. *)
Lemma successful_delivery_removes_snapshot (s : Sys) (req d n : nat)
    (others : list Task) (status : Z) (statusText : string)
    (snapshot later : list Log) :
  take_task (awaits_fetch req) (tasks (host s))
    = Some (DoFlushAwaitFetch d n req, others) ->
  response_ok status = true ->
  logs (this s) = (snapshot ++ later)%list ->
  List.length snapshot = n ->
  exists s1,
    step (FetchResolves req status statusText) s = Some s1
    /\ logs (this s1) = later
    /\ requests (host s1) = requests (host s).
Proof.
  intros Htask Hok Hlogs Hn. simpl. unfold with_task. rewrite Htask.
  unfold doFlush_response. rewrite Hok. eexists. split; [reflexivity|].
  simpl. rewrite Hlogs, <- Hn, skipn_app, skipn_all, Nat.sub_diag.
  split; reflexivity.
Qed.

(** While a flush is in flight a record call only appends: the suspended
    bodies, the in-flight handle and the requests stay. *)
Lemma record_call_while_in_flight (ev : Event) (s s' : Sys) (d : nat) :
  is_record_call ev = true ->
  flushPromise (this s) = Some d ->
  step ev s = Some s' ->
  (exists more, logs (this s') = (logs (this s) ++ more)%list)
  /\ tasks (host s') = tasks (host s)
  /\ flushPromise (this s') = Some d
  /\ requests (host s') = requests (host s).
Proof.
  intros Hev Hd Hstep.
  assert (Hlog : forall amb message level data,
    let s1 := unawaited (_log amb message level data s) in
    (exists more, logs (this s1) = (logs (this s) ++ more)%list)
    /\ tasks (host s1) = tasks (host s)
    /\ flushPromise (this s1) = Some d
    /\ requests (host s1) = requests (host s)).
  { intros amb message level data. simpl.
    assert (Hun : forall r : Settled * Sys,
      this (unawaited r) = this (snd r)
      /\ tasks (host (unawaited r)) = tasks (host (snd r))
      /\ requests (host (unawaited r)) = requests (host (snd r))).
    { intros [[|err] s0]; simpl; auto. }
    destruct (Hun (_log amb message level data s)) as [-> [-> ->]].
    clear Hun. unfold _log.
    destruct (isLocalDev (this s)).
    - destruct data as [dt|];
        [destruct (JSON.stringify_indent2 (JObj (enumerable dt)))|]; simpl;
        (split; [exists []; now rewrite app_nil_r|auto]).
    - destruct (fallback_print _ s) as [s1|err] eqn:Hfb;
        [|simpl; split; [exists []; now rewrite app_nil_r|auto]].
      assert (H1 : this s1 = this s /\ tasks (host s1) = tasks (host s)
                   /\ requests (host s1) = requests (host s)).
      { unfold fallback_print in Hfb.
        destruct (_ || _); [|inversion Hfb; auto].
        destruct (JSON.stringify _); inversion Hfb; auto. }
      destruct H1 as [Hthis [Htasks Hreqs]].
      destruct s1 as [e1 h1]. simpl in Hthis, Htasks, Hreqs. subst e1.
      destruct (this s) as [cx ak ds sv lg rid ft fp ms cnt au dev].
      simpl in Hd. subst fp. rewrite <- Htasks, <- Hreqs.
      unfold after_push, scheduleFlush, flush. simpl.
      destruct (_ >=? _)%Z; destruct ft as [t|]; destruct cx as [c|]; simpl;
        (split; [eexists; reflexivity|auto]). }
  destruct ev; try discriminate; simpl in Hstep.
  - inversion Hstep; subst. apply Hlog.
  - inversion Hstep; subst. apply Hlog.
  - inversion Hstep; subst. apply Hlog.
  - unfold error in Hstep. destruct (error_message msg); [|discriminate].
    inversion Hstep; subst. apply Hlog.
  - inversion Hstep; subst. apply Hlog.
Qed.

Lemma record_calls_while_in_flight (evs : list Event) (s s' : Sys) (d : nat) :
  forallb is_record_call evs = true ->
  flushPromise (this s) = Some d ->
  run evs s = Some s' ->
  (exists more, logs (this s') = (logs (this s) ++ more)%list)
  /\ tasks (host s') = tasks (host s)
  /\ flushPromise (this s') = Some d
  /\ requests (host s') = requests (host s).
Proof.
  revert s. induction evs as [|ev evs IH]; intros s Hall Hd Hrun; simpl in *.
  - inversion Hrun; subst. split; [exists []; now rewrite app_nil_r|auto].
  - apply andb_true_iff in Hall as [Hev Hall].
    destruct (step ev s) as [s1|] eqn:Hstep; [|discriminate].
    destruct (record_call_while_in_flight ev s s1 d Hev Hd Hstep)
      as [[m1 Hl1] [Ht1 [Hp1 Hr1]]].
    destruct (IH s1 Hall Hp1 Hrun) as [[m2 Hl2] [Ht2 [Hp2 Hr2]]].
    split; [|rewrite Ht2, Hr2; auto].
    exists (m1 ++ m2)%list. now rewrite Hl2, Hl1, app_assoc.
Qed.

(** X19: with one flush in flight, the records that record calls append
    between its snapshot and a successful answer are exactly what the
    buffer holds afterwards. *)
Lemma single_flight_keeps_later_records (s s1 : Sys) (req d : nat)
    (others : list Task) (evs : list Event) (status : Z)
    (statusText : string) :
  take_task (awaits_fetch req) (tasks (host s))
    = Some (DoFlushAwaitFetch d (List.length (logs (this s))) req, others) ->
  flushPromise (this s) = Some d ->
  forallb is_record_call evs = true ->
  run evs s = Some s1 ->
  response_ok status = true ->
  exists later s2,
    logs (this s1) = (logs (this s) ++ later)%list
    /\ step (FetchResolves req status statusText) s1 = Some s2
    /\ logs (this s2) = later.
Proof.
  intros Htask Hd Hall Hrun Hok.
  destruct (record_calls_while_in_flight evs s s1 d Hall Hd Hrun)
    as [[later Hlater] [Htasks _]].
  rewrite <- Htasks in Htask.
  destruct (successful_delivery_removes_snapshot s1 req d _ others status
              statusText (logs (this s)) later Htask Hok Hlater eq_refl)
    as [s2 [Hstep [Hlogs _]]].
  exists later, s2. auto.
Qed.

(** C1, on [overlap_run]: both calls pass line 138 and line 174 with the
    handle still [null], so both snapshot the buffer [a] with length 1 and
    both send it.  The record [b] comes after the second snapshot and
    before the second answer; the first answer removes [a], the second
    removes [b], which was in neither request. *)
Theorem overlapping_flushes_drop_unsent_record :
  logs_after 5 = Some [record_of "a"]
  /\ option_map (fun s => tasks (host s))
       (run (firstn 5 overlap_run) (boot sample_args "uuid-1"))
     = Some [FlushAwaitCurrent 1 3; DoFlushAwaitFetch 3 1 1;
             FlushAwaitCurrent 0 2; DoFlushAwaitFetch 2 1 0]
  /\ logs_after 6 = Some [record_of "a"; record_of "b"]
  /\ logs_after 7 = Some [record_of "b"]
  /\ logs_after 8 = Some []
  /\ exists text,
       JSON.stringify (JArr [JObj (record_of "a")]) = Normal (Some text)
       /\ option_map (fun s => map body (requests (host s)))
            (run overlap_run (boot sample_args "uuid-1"))
          = Some [text; text].
Proof.
  repeat split. eexists. split; reflexivity.
Qed.

(** ** Local development mode, over whole runs *)

Lemma take_task_found (want P : Task -> bool) (l rest : list Task) (t : Task) :
  take_task want l = Some (t, rest) ->
  forallb P l = true ->
  want t = true /\ P t = true /\ forallb P rest = true.
Proof.
  revert rest. induction l as [|x l IH]; intros rest Htake Hall; simpl in *.
  - discriminate.
  - apply andb_true_iff in Hall as [Hx Hl].
    destruct (want x) eqn:Hw.
    + inversion Htake; subst. auto.
    + destruct (take_task want l) as [[found others]|]; [|discriminate].
      inversion Htake; subst.
      destruct (IH others eq_refl Hl) as [H1 [H2 H3]].
      simpl. rewrite Hx, H3. auto.
Qed.

Lemma flush_local_dev (skip : bool) (s : Sys) :
  local_dev_inv s -> local_dev_inv (snd (flush skip s)).
Proof.
  unfold local_dev_inv, flush. intros [Hd [Hl [Hr Ht]]].
  destruct (skip && _); simpl; auto.
Qed.

Lemma scheduleFlush_local_dev (timeout : Z) (reset : bool) (s : Sys) :
  local_dev_inv s -> local_dev_inv (scheduleFlush timeout reset s).
Proof.
  unfold local_dev_inv, scheduleFlush, setTimeout, clearTimeout.
  intros [Hd [Hl [Hr Ht]]].
  destruct (flushTimeout (this s)) as [t|] eqn:Hft; [destruct reset|];
    simpl; rewrite ?Hft; simpl;
    destruct (flushPromise (this s)); simpl; auto.
Qed.

Lemma quiet_local_dev (s s' : Sys) :
  quiet s s' -> local_dev_inv s -> local_dev_inv s'.
Proof.
  unfold quiet, local_dev_inv.
  intros [Hthis [Hreq [_ [_ [_ [_ [_ [_ Htasks]]]]]]]] [Hd [Hl [Hr Ht]]].
  rewrite Hthis, Hreq, Htasks. auto.
Qed.

Lemma step_local_dev (ev : Event) (s s' : Sys) :
  local_dev_inv s -> step ev s = Some s' -> local_dev_inv s'.
Proof.
  intros Hinv Hstep.
  destruct (is_record_call ev) eqn:Hrec.
  { apply (quiet_local_dev s s'); [|assumption].
    apply (local_dev_only_prints_aux ev); [apply Hinv|assumption|assumption]. }
  destruct ev; try discriminate; simpl in Hstep.
  - inversion Hstep; subst. now apply flush_local_dev.
  - inversion Hstep; subst. now apply scheduleFlush_local_dev.
  - unfold with_task in Hstep.
    destruct (take_task _ _) as [[t others]|] eqn:Htake; [|discriminate].
    destruct Hinv as [Hd [Hl [Hr Ht]]].
    destruct (take_task_found _ is_flush_task _ _ _ Htake Ht) as [_ [Hft Hothers]].
    unfold local_dev_inv.
    destruct t as [q [prev|]|q cur| | |]; try discriminate; simpl in Hstep.
    + destruct (promise_state prev _) as [[|err]|]; inversion Hstep; subst;
        unfold flush_start, doFlush; simpl; rewrite ?Hl; simpl; auto.
    + inversion Hstep; subst.
      unfold flush_start, doFlush; simpl; rewrite ?Hl; simpl; auto.
    + destruct (promise_state cur _) as [[|err]|]; inversion Hstep; subst;
        simpl; auto.
  - unfold with_task in Hstep.
    destruct (take_task _ _) as [[t others]|] eqn:Htake; [|discriminate].
    destruct Hinv as [Hd [Hl [Hr Ht]]].
    destruct (take_task_found _ is_flush_task _ _ _ Htake Ht) as [Hw [Hft _]].
    destruct t; discriminate.
  - unfold with_task in Hstep.
    destruct (take_task _ _) as [[t others]|] eqn:Htake; [|discriminate].
    destruct Hinv as [Hd [Hl [Hr Ht]]].
    destruct (take_task_found _ is_flush_task _ _ _ Htake Ht) as [Hw [Hft _]].
    destruct t; discriminate.
  - unfold with_task in Hstep.
    destruct (take_task _ _) as [[t others]|] eqn:Htake; [|discriminate].
    destruct Hinv as [Hd [Hl [Hr Ht]]].
    destruct (take_task_found _ is_flush_task _ _ _ Htake Ht) as [Hw [Hft _]].
    destruct t; discriminate.
  - unfold with_task in Hstep.
    destruct (take_task _ _) as [[t others]|] eqn:Htake; [|discriminate].
    destruct Hinv as [Hd [Hl [Hr Ht]]].
    destruct (take_task_found _ is_flush_task _ _ _ Htake Ht) as [Hw [Hft _]].
    destruct t; discriminate.
  - destruct (existsb _ _); [|discriminate]. inversion Hstep; subst.
    unfold timer_callback. simpl.
    destruct Hinv as [Hd [Hl [Hr Ht]]].
    destruct (ctx (this s)); unfold local_dev_inv; simpl; auto.
    unfold flush. simpl. destruct (flushPromise (this s)); simpl; auto.
Qed.

(** X18: in local development mode no run of the system, whatever the
    calls, the timers and the order of resumption, makes a request or
    buffers a record. *)
Lemma local_dev_never_requests (args : LoggerArgs) (uuid : string)
    (evs : list Event) (s : Sys) :
  arg_isLocalDev args = Some true ->
  run evs (boot args uuid) = Some s ->
  requests (host s) = [] /\ logs (this s) = [].
Proof.
  intros Hdev Hrun.
  assert (Hinv : local_dev_inv (boot args uuid)).
  { unfold local_dev_inv. simpl. rewrite Hdev. auto. }
  clear Hdev. revert Hrun Hinv. generalize (boot args uuid) as s0.
  induction evs as [|ev evs IH]; intros s0 Hrun Hinv; simpl in Hrun.
  - inversion Hrun; subst. destruct Hinv as [_ [Hl [Hr _]]]. auto.
  - destruct (step ev s0) as [s1|] eqn:Hstep; [|discriminate].
    apply (IH s1 Hrun). now apply (step_local_dev ev s0).
Qed.

(** * Properties beyond the claims *)

(** ** What each method leaves alone *)

Lemma scheduleFlush_frame (timeout : Z) (reset : bool) (s : Sys) :
  config (this (scheduleFlush timeout reset s)) = config (this s)
  /\ flushPromise (this (scheduleFlush timeout reset s)) = flushPromise (this s)
  /\ tasks (host (scheduleFlush timeout reset s)) = tasks (host s)
  /\ settled (host (scheduleFlush timeout reset s)) = settled (host s)
  /\ next_promise (host (scheduleFlush timeout reset s)) = next_promise (host s)
  /\ registered (host (scheduleFlush timeout reset s)) = registered (host s).
Proof.
  unfold scheduleFlush, setTimeout, clearTimeout, config.
  destruct s as [e h]. simpl.
  destruct (flushTimeout e) as [t|] eqn:Hft; [destruct reset|];
    simpl; rewrite ?Hft; simpl;
    destruct (flushPromise e) eqn:Hfp; simpl; rewrite ?Hfp; repeat split.
Qed.

Lemma flush_frame (skip : bool) (s : Sys) :
  this (snd (flush skip s)) = this s
  /\ requests (host (snd (flush skip s))) = requests (host s)
  /\ console (host (snd (flush skip s))) = console (host s)
  /\ timers (host (snd (flush skip s))) = timers (host s)
  /\ registered (host (snd (flush skip s))) = registered (host s)
  /\ fst (flush skip s) = next_promise (host s)
  /\ next_promise (host (snd (flush skip s))) = S (next_promise (host s)).
Proof. unfold flush. destruct (skip && _); simpl; repeat split. Qed.

Lemma after_push_config (s : Sys) :
  config (this (snd (after_push s))) = config (this s).
Proof.
  unfold after_push.
  destruct (_ >=? _)%Z; [|apply scheduleFlush_frame].
  set (s1 := if is_some (flushTimeout (this s)) then _ else s).
  assert (H1 : config (this s1) = config (this s)).
  { subst s1. destruct (is_some _); [apply scheduleFlush_frame|reflexivity]. }
  destruct (ctx (this s1)); [|assumption].
  destruct (flush true s1) as [p s2] eqn:Hf. simpl.
  change s2 with (snd (p, s2)). rewrite <- Hf.
  now rewrite (proj1 (flush_frame true s1)).
Qed.

Lemma fallback_print_keeps (log : Log) (s s1 : Sys) :
  fallback_print log s = Normal s1 ->
  this s1 = this s /\ requests (host s1) = requests (host s)
  /\ timers (host s1) = timers (host s) /\ tasks (host s1) = tasks (host s).
Proof.
  unfold fallback_print. intros H.
  destruct (_ || _); [|inversion H; auto].
  destruct (JSON.stringify _); inversion H; auto.
Qed.

(** Whatever its arguments and the state, [_log] keeps the configuration
    and the requests, and adds at most one record at the end of the
    buffer. *)
Lemma _log_effect (amb : Ambient) (message : option string)
    (level : LogLevel) (data : option JsObject) (s : Sys) :
  config (this (snd (_log amb message level data s))) = config (this s)
  /\ requests (host (snd (_log amb message level data s))) = requests (host s)
  /\ exists more,
       logs (this (snd (_log amb message level data s)))
       = (logs (this s) ++ more)%list
       /\ (List.length more <= 1)%nat.
Proof.
  unfold _log. destruct (isLocalDev (this s)) eqn:Hdev.
  - destruct data as [d|]; [destruct (JSON.stringify_indent2 (JObj (enumerable d)))|];
      simpl; (split; [reflexivity|]); (split; [reflexivity|]);
      exists []; rewrite app_nil_r; auto.
  - destruct (fallback_print _ s) as [s1|err] eqn:Hfb; simpl.
    + destruct (fallback_print_keeps _ _ _ Hfb) as [Hthis [Hreq _]].
      rewrite after_push_config, after_push_requests, after_push_logs.
      simpl. rewrite Hthis, Hreq. split; [reflexivity|].
      split; [reflexivity|]. eexists. split; [reflexivity|]. simpl. lia.
    + split; [reflexivity|]. split; [reflexivity|].
      exists []. rewrite app_nil_r. auto.
Qed.

(** A record call that returns is a [_log] whose promise is dropped. *)
Lemma record_call_is_log (ev : Event) (s s' : Sys) :
  is_record_call ev = true -> step ev s = Some s' ->
  exists amb message level data,
    s' = unawaited (_log amb message level data s).
Proof.
  intros Hev Hstep. destruct ev; try discriminate; simpl in Hstep.
  - inversion Hstep. now exists amb, (Some msg), LInfo, data.
  - inversion Hstep. now exists amb, (Some msg), LInfo, data.
  - inversion Hstep. now exists amb, (Some msg), LWarning, data.
  - unfold error in Hstep. destruct (error_message msg) as [m|]; [|discriminate].
    inversion Hstep. now exists amb, m, LError, data.
  - inversion Hstep. now exists amb, (Some msg), LDebug, data.
Qed.


Lemma doFlush_frame (s : Sys) :
  this (snd (doFlush s)) = this s
  /\ timers (host (snd (doFlush s))) = timers (host s)
  /\ console (host (snd (doFlush s))) = console (host s)
  /\ exists more,
       requests (host (snd (doFlush s))) = (requests (host s) ++ more)%list
       /\ (List.length more <= 1)%nat.
Proof.
  unfold doFlush. destruct (logs (this s)) as [|l0 ls].
  - simpl. repeat split. exists []. rewrite app_nil_r. auto.
  - destruct (JSON.stringify _); simpl; repeat split.
    + eexists. split; [reflexivity|]. simpl. lia.
    + exists []. rewrite app_nil_r. auto.
Qed.

Lemma resume_flush_frame (t : Task) (s s' : Sys) :
  resume_flush t s = Some s' ->
  config (this s') = config (this s)
  /\ logs (this s') = logs (this s)
  /\ flushTimeout (this s') = flushTimeout (this s)
  /\ timers (host s') = timers (host s)
  /\ console (host s') = console (host s)
  /\ exists more,
       requests (host s') = (requests (host s) ++ more)%list
       /\ (List.length more <= 1)%nat.
Proof.
  assert (Hstart : forall p,
    config (this (flush_start p s)) = config (this s)
    /\ logs (this (flush_start p s)) = logs (this s)
    /\ flushTimeout (this (flush_start p s)) = flushTimeout (this s)
    /\ timers (host (flush_start p s)) = timers (host s)
    /\ console (host (flush_start p s)) = console (host s)
    /\ exists more,
         requests (host (flush_start p s)) = (requests (host s) ++ more)%list
         /\ (List.length more <= 1)%nat).
  { intros p. unfold flush_start.
    destruct (doFlush_frame s) as [Hthis [Htm [Hcon Hreq]]].
    destruct (doFlush s) as [d s1]. simpl in *.
    unfold config. simpl. rewrite Hthis, Htm, Hcon. repeat split. exact Hreq. }
  assert (Hnone : exists more : list Request,
            requests (host s) = (requests (host s) ++ more)%list
            /\ (List.length more <= 1)%nat).
  { exists []. rewrite app_nil_r. auto. }
  destruct t as [p [q|]|p d| | |]; simpl; try discriminate.
  - destruct (promise_state q (host s)) as [[|err]|]; intros H;
      inversion H; subst; [apply Hstart|]. simpl. repeat split. exact Hnone.
  - intros H. inversion H; subst. apply Hstart.
  - destruct (promise_state d (host s)) as [[|err]|]; intros H;
      inversion H; subst; simpl; repeat split; exact Hnone.
Qed.

Lemma timer_callback_frame (s : Sys) :
  config (this (timer_callback s)) = config (this s)
  /\ logs (this (timer_callback s)) = logs (this s)
  /\ requests (host (timer_callback s)) = requests (host s)
  /\ timers (host (timer_callback s)) = timers (host s)
  /\ console (host (timer_callback s)) = console (host s).
Proof.
  unfold timer_callback. destruct (ctx (this s)); [|simpl; repeat split].
  destruct (flush_frame true s) as [Hthis [Hreq [Hcon [Htm _]]]].
  destruct (flush true s) as [p s1]. simpl in *.
  unfold config. simpl. rewrite Hthis, Hreq, Hcon, Htm. repeat split.
Qed.

(** No step assigns a field of the configuration. *)
Lemma step_config (ev : Event) (s s' : Sys) :
  step ev s = Some s' -> config (this s') = config (this s).
Proof.
  intros Hstep.
  destruct (is_record_call ev) eqn:Hrec.
  { destruct (record_call_is_log ev s s' Hrec Hstep)
      as [amb [message [level [data ->]]]].
    rewrite (proj1 (unawaited_keeps _)). apply _log_effect. }
  destruct ev; try discriminate; simpl in Hstep;
    try (unfold with_task in Hstep;
         destruct (take_task _ _) as [[t others]|]; [|discriminate]).
  - inversion Hstep; subst. now rewrite (proj1 (flush_frame _ s)).
  - inversion Hstep; subst. apply scheduleFlush_frame.
  - apply resume_flush_frame in Hstep. apply Hstep.
  - destruct t; try discriminate. inversion Hstep; subst.
    unfold doFlush_response. destruct (response_ok status); reflexivity.
  - inversion Hstep; subst. reflexivity.
  - destruct t; try discriminate; inversion Hstep; subst; reflexivity.
  - inversion Hstep; subst. reflexivity.
  - destruct (existsb _ _); [|discriminate]. inversion Hstep; subst.
    now rewrite (proj1 (timer_callback_frame _)).
Qed.

(** ** Where requests come from and where records go *)

(** X1: a step makes at most one request, and only the resumption of a
    suspended [flush] makes one: record calls, calls of [flush] and of
    [scheduleFlush], timers and the answers of the network make none. *)
Theorem requests_only_when_flush_resumes (ev : Event) (s s' : Sys) :
  step ev s = Some s' ->
  exists more,
    requests (host s') = (requests (host s) ++ more)%list
    /\ (List.length more <= 1)%nat
    /\ match ev with
       | Resume _ => True
       | _ => more = []
       end.
Proof.
  intros Hstep.
  assert (Hsame : requests (host s') = requests (host s) ->
                  exists more,
                    requests (host s') = (requests (host s) ++ more)%list
                    /\ (List.length more <= 1)%nat /\ more = []).
  { intros ->. exists []. rewrite app_nil_r. auto. }
  destruct (is_record_call ev) eqn:Hrec.
  { destruct (record_call_is_log ev s s' Hrec Hstep)
      as [amb [message [level [data ->]]]].
    destruct Hsame as [more [H1 [H2 H3]]].
    { rewrite (proj1 (proj2 (unawaited_keeps _))). apply _log_effect. }
    exists more. repeat split; auto. destruct ev; auto. }
  destruct ev; try discriminate; simpl in Hstep;
    try (unfold with_task in Hstep;
         destruct (take_task _ _) as [[t others]|]; [|discriminate]).
  - inversion Hstep; subst. apply Hsame, flush_frame.
  - inversion Hstep; subst. apply Hsame, scheduleFlush_requests.
  - apply resume_flush_frame in Hstep.
    destruct Hstep as [_ [_ [_ [_ [_ [more [H1 H2]]]]]]].
    exists more. simpl in H1. auto.
  - destruct t; try discriminate. inversion Hstep; subst.
    apply Hsame. unfold doFlush_response.
    destruct (response_ok status); reflexivity.
  - inversion Hstep; subst. apply Hsame. reflexivity.
  - apply Hsame.
    destruct t; try discriminate; inversion Hstep; subst; reflexivity.
  - inversion Hstep; subst. apply Hsame. reflexivity.
  - destruct (existsb _ _); [|discriminate]. inversion Hstep; subst.
    apply Hsame. now rewrite (proj1 (proj2 (proj2 (timer_callback_frame _)))).
Qed.

Lemma requests_only_when_flush_resumes_witness :
  exists more,
    requests (host (info sample_amb "b" None in_flight_sys))
    = (requests (host in_flight_sys) ++ more)%list
    /\ (List.length more <= 1)%nat
    /\ more = [].
Proof.
  exact (requests_only_when_flush_resumes (CallInfo sample_amb "b" None)
           in_flight_sys _ eq_refl).
Defined.

(** X2: records leave the buffer only when [fetch] resolves with an ok
    status, and then from the front, as many as the waiting [doFlush]
    counted.  A record call adds at most one record at the end; every other
    step leaves the buffer as it is. *)
Theorem buffer_shrinks_only_on_ok_response (ev : Event) (s s' : Sys) :
  step ev s = Some s' ->
  match ev with
  | FetchResolves req status _ =>
      if response_ok status then
        exists d n others,
          take_task (awaits_fetch req) (tasks (host s))
          = Some (DoFlushAwaitFetch d n req, others)
          /\ logs (this s') = skipn n (logs (this s))
      else logs (this s') = logs (this s)
  | _ =>
      exists more,
        logs (this s') = (logs (this s) ++ more)%list
        /\ (List.length more <= 1)%nat
        /\ (is_record_call ev = false -> more = [])
  end.
Proof.
  intros Hstep.
  assert (Hsame : logs (this s') = logs (this s) ->
                  exists more,
                    logs (this s') = (logs (this s) ++ more)%list
                    /\ (List.length more <= 1)%nat
                    /\ (is_record_call ev = false -> more = [])).
  { intros ->. exists []. rewrite app_nil_r. auto. }
  destruct (is_record_call ev) eqn:Hrec.
  { destruct (record_call_is_log ev s s' Hrec Hstep)
      as [amb [message [level [data ->]]]].
    destruct (_log_effect amb message level data s) as [_ [_ [more [H1 H2]]]].
    rewrite (proj1 (unawaited_keeps _)).
    destruct ev; try discriminate; exists more; repeat split; auto;
      discriminate. }
  destruct ev; try discriminate; simpl in Hstep.
  - inversion Hstep; subst. apply Hsame. now rewrite (proj1 (flush_frame _ s)).
  - inversion Hstep; subst. apply Hsame, scheduleFlush_logs.
  - unfold with_task in Hstep.
    destruct (take_task _ _) as [[t others]|]; [|discriminate].
    apply resume_flush_frame in Hstep. apply Hsame, Hstep.
  - unfold with_task in Hstep.
    destruct (take_task _ _) as [[t others]|] eqn:Htake; [|discriminate].
    pose proof (take_task_found _ (fun _ => true) _ _ _ Htake) as Hfound.
    destruct t as [| |d n r| |]; try discriminate.
    destruct Hfound as [Hw _]; [clear; induction (tasks (host s)); auto|].
    simpl in Hw. apply Nat.eqb_eq in Hw. subst r.
    inversion Hstep; subst. unfold doFlush_response.
    destruct (response_ok status); [|reflexivity].
    exists d, n, others. split; reflexivity.
  - unfold with_task in Hstep.
    destruct (take_task _ _) as [[t others]|]; [|discriminate].
    inversion Hstep; subst. apply Hsame. reflexivity.
  - unfold with_task in Hstep.
    destruct (take_task _ _) as [[t others]|]; [|discriminate].
    apply Hsame.
    destruct t; try discriminate; inversion Hstep; subst; reflexivity.
  - unfold with_task in Hstep.
    destruct (take_task _ _) as [[t others]|]; [|discriminate].
    inversion Hstep; subst. apply Hsame. reflexivity.
  - destruct (existsb _ _); [|discriminate]. inversion Hstep; subst.
    apply Hsame. now rewrite (proj1 (proj2 (timer_callback_frame _))).
Qed.

Lemma buffer_shrinks_only_on_ok_response_witness :
  exists d n others,
    take_task (awaits_fetch 0) (tasks (host in_flight_sys))
    = Some (DoFlushAwaitFetch d n 0, others)
    /\ logs (this (or_else (step (FetchResolves 0 200 "OK") in_flight_sys)
                     in_flight_sys))
       = skipn n (logs (this in_flight_sys)).
Proof.
  exact (buffer_shrinks_only_on_ok_response (FetchResolves 0 200 "OK")
           in_flight_sys _ eq_refl).
Defined.

(** ** Timers *)

Lemma timer_inv_same (s s' : Sys) :
  timers (host s') = timers (host s) ->
  flushTimeout (this s') = flushTimeout (this s) ->
  timer_inv s -> timer_inv s'.
Proof. unfold timer_inv. now intros -> ->. Qed.

Lemma timer_inv_none (s : Sys) : timers (host s) = [] -> timer_inv s.
Proof. unfold timer_inv. now intros ->. Qed.

Lemma scheduleFlush_timer_inv (timeout : Z) (reset : bool) (s : Sys) :
  timer_inv s -> timer_inv (scheduleFlush timeout reset s).
Proof.
  unfold timer_inv, scheduleFlush, setTimeout, clearTimeout.
  destruct s as [e h]. simpl.
  destruct (timers h) as [|[t0 d0] [|x rest]] eqn:Htm; try contradiction.
  - intros _.
    destruct (flushTimeout e) as [t|] eqn:Hft; [destruct reset|]; simpl;
      rewrite ?Hft, ?Htm; simpl; auto;
      destruct (flushPromise e); simpl; rewrite ?Htm; simpl; auto.
  - intros Hft. rewrite Hft. destruct reset; simpl.
    + destruct (flushPromise e); simpl; unfold drop_timer; rewrite ?Htm; simpl;
        rewrite ?Nat.eqb_refl; simpl; auto.
    + rewrite Hft. simpl. rewrite Htm. assumption.
Qed.

Lemma after_push_timer_inv (s : Sys) :
  timer_inv s -> timer_inv (snd (after_push s)).
Proof.
  intros Hinv. unfold after_push.
  destruct (_ >=? _)%Z; [|now apply scheduleFlush_timer_inv].
  set (s1 := if is_some (flushTimeout (this s)) then _ else s).
  assert (H1 : timer_inv s1).
  { subst s1. destruct (is_some _); [now apply scheduleFlush_timer_inv|auto]. }
  destruct (ctx (this s1)); [|assumption].
  destruct (flush_frame true s1) as [Hthis [_ [_ [Htm _]]]].
  destruct (flush true s1) as [p s2]. simpl in *.
  apply (timer_inv_same s1); simpl; auto. now rewrite Hthis.
Qed.

Lemma _log_timer_inv (amb : Ambient) (message : option string)
    (level : LogLevel) (data : option JsObject) (s : Sys) :
  timer_inv s -> timer_inv (snd (_log amb message level data s)).
Proof.
  intros Hinv. unfold _log. destruct (isLocalDev (this s)).
  - destruct data as [d|]; [destruct (JSON.stringify_indent2 (JObj (enumerable d)))|];
      simpl; apply (timer_inv_same s); auto.
  - destruct (fallback_print _ s) as [s1|err] eqn:Hfb; simpl; [|assumption].
    destruct (fallback_print_keeps _ _ _ Hfb) as [Hthis [_ [Htm _]]].
    apply after_push_timer_inv. apply (timer_inv_same s); simpl; auto.
    now rewrite Hthis.
Qed.

Lemma step_timer_inv (ev : Event) (s s' : Sys) :
  timer_inv s -> step ev s = Some s' -> timer_inv s'.
Proof.
  intros Hinv Hstep.
  destruct (is_record_call ev) eqn:Hrec.
  { destruct (record_call_is_log ev s s' Hrec Hstep)
      as [amb [message [level [data ->]]]].
    destruct (unawaited_keeps (_log amb message level data s))
      as [Hthis [_ [Htm _]]].
    apply (timer_inv_same (snd (_log amb message level data s)));
      [assumption|now rewrite Hthis|now apply _log_timer_inv]. }
  destruct ev; try discriminate; simpl in Hstep;
    try (unfold with_task in Hstep;
         destruct (take_task _ _) as [[tk others]|]; [|discriminate]).
  - inversion Hstep; subst.
    destruct (flush_frame skipIfInProgress s) as [Hthis [_ [_ [Htm _]]]].
    apply (timer_inv_same s); auto. now rewrite Hthis.
  - inversion Hstep; subst. now apply scheduleFlush_timer_inv.
  - apply resume_flush_frame in Hstep.
    destruct Hstep as [_ [_ [Hft [Htm _]]]].
    apply (timer_inv_same s); auto.
  - destruct tk; try discriminate. inversion Hstep; subst.
    apply (timer_inv_same s); auto;
      unfold doFlush_response; destruct (response_ok status); reflexivity.
  - inversion Hstep; subst. apply (timer_inv_same s); auto.
  - apply (timer_inv_same s); auto;
      destruct tk; try discriminate; inversion Hstep; subst; reflexivity.
  - inversion Hstep; subst. apply (timer_inv_same s); auto.
  - destruct (existsb _ _) eqn:Hlive; [|discriminate]. inversion Hstep; subst.
    apply timer_inv_none.
    rewrite (proj1 (proj2 (proj2 (proj2 (timer_callback_frame _))))). simpl.
    unfold timer_inv in Hinv.
    destruct (timers (host s)) as [|[t0 d0] [|x rest]]; try contradiction;
      simpl in *; [discriminate|].
    rewrite orb_false_r in Hlive. unfold drop_timer. simpl.
    now rewrite Hlive.
Qed.

(** X3: in every run of a logger from its construction at most one timer is
    live, and a live timer is the one [flushTimeout] holds; this is so
    whatever the application calls, [scheduleFlush] with or without [reset]
    included. *)
Theorem at_most_one_live_timer (args : LoggerArgs) (uuid : string)
    (evs : list Event) (s : Sys) :
  run evs (boot args uuid) = Some s ->
  (List.length (timers (host s)) <= 1)%nat
  /\ forall t d, In (t, d) (timers (host s)) -> flushTimeout (this s) = Some t.
Proof.
  intros Hrun.
  assert (Hinv : timer_inv s).
  { assert (H0 : timer_inv (boot args uuid)) by exact I.
    revert Hrun H0. generalize (boot args uuid) as s0.
    induction evs as [|ev evs IH]; intros s0 Hrun H0; simpl in Hrun.
    - now inversion Hrun; subst.
    - destruct (step ev s0) as [s1|] eqn:Hstep; [|discriminate].
      apply (IH s1 Hrun). now apply (step_timer_inv ev s0). }
  unfold timer_inv in Hinv.
  destruct (timers (host s)) as [|[t0 d0] [|x rest]]; try contradiction.
  - split; [simpl; lia|]. intros t d [].
  - split; [simpl; lia|]. intros t d [H|[]]. now inversion H; subst.
Qed.

Lemma at_most_one_live_timer_witness :
  (List.length (timers (host threshold_sys)) <= 1)%nat
  /\ forall t d, In (t, d) (timers (host threshold_sys)) ->
                 flushTimeout (this threshold_sys) = Some t.
Proof.
  exact (at_most_one_live_timer (with_flushAfterLogs 2 sample_args) "uuid-1"
           [CallInfo sample_amb "a" None] threshold_sys eq_refl).
Defined.

(** X4: [scheduleFlush] without [reset] does nothing when a timer is
    pending or a flush is in flight, so calling it twice is calling it
    once; after it, one of the two handles is set.  When both are [null] it
    arms one fresh timer with the given delay and keeps its identity. *)
Theorem scheduleFlush_without_reset (t1 t2 : Z) (s : Sys) :
  scheduleFlush t2 false (scheduleFlush t1 false s) = scheduleFlush t1 false s
  /\ (is_some (flushTimeout (this s)) || is_some (flushPromise (this s)) = true
      -> scheduleFlush t1 false s = s)
  /\ is_some (flushTimeout (this (scheduleFlush t1 false s)))
     || is_some (flushPromise (this (scheduleFlush t1 false s))) = true
  /\ (flushTimeout (this s) = None -> flushPromise (this s) = None ->
      timers (host (scheduleFlush t1 false s))
      = (timers (host s) ++ [(next_timer (host s), t1)])%list
      /\ flushTimeout (this (scheduleFlush t1 false s))
         = Some (next_timer (host s))
      /\ cleared (host (scheduleFlush t1 false s)) = cleared (host s)).
Proof.
  unfold scheduleFlush, setTimeout. destruct s as [e h]. simpl.
  destruct (flushTimeout e) as [t|] eqn:Hft.
  - repeat (rewrite ?Hft; simpl).
    repeat split; intros; try discriminate; auto.
  - destruct (flushPromise e) as [d|] eqn:Hfp;
      repeat (rewrite ?Hft, ?Hfp; simpl);
      repeat split; intros; try discriminate; auto.
Qed.

Lemma scheduleFlush_without_reset_witness :
  scheduleFlush 500 false in_flight_sys = in_flight_sys
  /\ timers (host (scheduleFlush 500 false (boot sample_args "uuid-1")))
     = [(1, 500%Z)].
Proof.
  split.
  - exact (proj1 (proj2 (scheduleFlush_without_reset 500 500 in_flight_sys))
             eq_refl).
  - exact (proj1 (proj2 (proj2 (proj2
             (scheduleFlush_without_reset 500 500 (boot sample_args "uuid-1"))))
             eq_refl eq_refl)).
Defined.

(** X5: [scheduleFlush] with [reset] and a pending timer clears that timer;
    with no flush in flight it then arms a fresh one with the given delay,
    with a flush in flight it leaves the logger without a timer. *)
Theorem scheduleFlush_reset_pending (timeout : Z) (s : Sys) (t : nat) :
  flushTimeout (this s) = Some t ->
  cleared (host (scheduleFlush timeout true s)) = (cleared (host s) ++ [t])%list
  /\ match flushPromise (this s) with
     | None =>
         timers (host (scheduleFlush timeout true s))
         = (drop_timer t (timers (host s))
              ++ [(next_timer (host s), timeout)])%list
         /\ flushTimeout (this (scheduleFlush timeout true s))
            = Some (next_timer (host s))
     | Some _ =>
         timers (host (scheduleFlush timeout true s))
         = drop_timer t (timers (host s))
         /\ flushTimeout (this (scheduleFlush timeout true s)) = None
     end.
Proof.
  intros Hft. unfold scheduleFlush, setTimeout, clearTimeout.
  destruct s as [e h]. simpl in *. rewrite Hft. simpl.
  destruct (flushPromise e) as [d|] eqn:Hfp; simpl; repeat split.
Qed.

Lemma scheduleFlush_reset_pending_witness :
  cleared (host (scheduleFlush 500 true buffered_sys)) = [1]
  /\ timers (host (scheduleFlush 500 true buffered_sys)) = [(2, 500%Z)]
  /\ flushTimeout (this (scheduleFlush 500 true buffered_sys)) = Some 2.
Proof.
  exact (scheduleFlush_reset_pending 500 buffered_sys 1 eq_refl).
Defined.

(** X6: when the timer fires on a logger with a context, the callback calls
    [flush({ skipIfInProgress: true })] without awaiting it, clears
    [flushTimeout], and hands [ctx.waitUntil] the promise of its own inner
    function, which is already fulfilled: the promise of the [flush] it
    started is the one allocated just before and is not registered. *)
Theorem timer_fire_registers_settled_promise (s : Sys) (t : nat)
    (c : ExecutionContext) :
  ctx (this s) = Some c ->
  existsb (fun td => Nat.eqb (fst td) t) (timers (host s)) = true ->
  exists s',
    step (TimerFires t) s = Some s'
    /\ flushTimeout (this s') = None
    /\ logs (this s') = logs (this s)
    /\ flushPromise (this s') = flushPromise (this s)
    /\ timers (host s') = drop_timer t (timers (host s))
    /\ registered (host s')
       = (registered (host s) ++ [S (next_promise (host s))])%list
    /\ promise_state (S (next_promise (host s))) (host s') = Some Fulfilled
    /\ match flushPromise (this s) with
       | Some _ =>
           tasks (host s') = tasks (host s)
           /\ promise_state (next_promise (host s)) (host s') = Some Fulfilled
       | None =>
           tasks (host s')
           = FlushAwaitPrevious (next_promise (host s)) None :: tasks (host s)
       end.
Proof.
  intros Hctx Hlive. simpl. rewrite Hlive. eexists. split; [reflexivity|].
  unfold timer_callback, flush, promise_state. destruct s as [e h].
  simpl in *. rewrite Hctx.
  destruct (flushPromise e) as [d|] eqn:Hfp;
    repeat (rewrite ?Hfp, ?Nat.eqb_refl; simpl); repeat split.
  destruct (next_promise h =? S (next_promise h))%nat; reflexivity.
Qed.

Lemma timer_fire_registers_settled_promise_witness :
  exists s',
    step (TimerFires 1) buffered_sys = Some s'
    /\ flushTimeout (this s') = None
    /\ registered (host s') = [1]
    /\ tasks (host s') = [FlushAwaitPrevious 0 None].
Proof.
  destruct (timer_fire_registers_settled_promise buffered_sys 1 WorkerContext
              eq_refl eq_refl)
    as [s' [H1 [H2 [_ [_ [_ [H3 [_ H4]]]]]]]].
  exists s'. split; [exact H1|]. split; [exact H2|].
  split; [exact H3|exact H4].
Defined.

(** ** A logger without a context *)

Lemma _log_no_ctx (amb : Ambient) (message : option string)
    (level : LogLevel) (data : option JsObject) (s : Sys) :
  ctx (this s) = None ->
  tasks (host (snd (_log amb message level data s))) = tasks (host s)
  /\ registered (host (snd (_log amb message level data s)))
     = registered (host s).
Proof.
  intros Hctx. unfold _log. destruct (isLocalDev (this s)).
  - destruct data as [d|]; [destruct (JSON.stringify_indent2 (JObj (enumerable d)))|];
      simpl; auto.
  - destruct (fallback_print _ s) as [s1|err] eqn:Hfb; simpl; [|auto].
    destruct (fallback_print_frame _ _ _ Hfb) as [Hthis [Hreg [Htasks _]]].
    rewrite <- Htasks, <- Hreg. unfold after_push. simpl. rewrite Hthis.
    set (s2 := on_this _ s1).
    assert (Hctx2 : forall tm r, ctx (this (scheduleFlush tm r s2)) = None).
    { intros tm r.
      pose proof (proj1 (scheduleFlush_frame tm r s2)) as Hc.
      unfold config in Hc. inversion Hc as [Hc']. rewrite Hc'.
      subst s2. simpl. now rewrite Hthis. }
    assert (Hkeep : forall tm r,
      tasks (host (scheduleFlush tm r s2)) = tasks (host s1)
      /\ registered (host (scheduleFlush tm r s2)) = registered (host s1)).
    { intros tm r. destruct (scheduleFlush_frame tm r s2) as [_ [_ [H1 [_ [_ H2]]]]].
      rewrite H1, H2. subst s2. auto. }
    destruct (_ >=? _)%Z; [|apply Hkeep].
    destruct (is_some (flushTimeout _)).
    + rewrite Hctx2. simpl. apply Hkeep.
    + subst s2. simpl. rewrite Hthis, Hctx. simpl. auto.
Qed.

(** With nothing suspended a step makes no request; unless it is a call
    of [flush] on a logger without a context, it suspends nothing and
    registers nothing either. *)
Lemma step_with_nothing_suspended (ev : Event) (s s' : Sys) :
  step ev s = Some s' ->
  tasks (host s) = [] ->
  requests (host s') = requests (host s)
  /\ (is_call_flush ev = false -> ctx (this s) = None ->
      tasks (host s') = tasks (host s))
  /\ (is_call_flush ev = false -> ctx (this s) = None ->
      registered (host s') = registered (host s)).
Proof.
  intros Hstep Htasks.
  destruct (is_record_call ev) eqn:Hrec.
  { destruct (record_call_is_log ev s s' Hrec Hstep)
      as [amb [message [level [data ->]]]].
    destruct (unawaited_keeps (_log amb message level data s))
      as [_ [Hr [_ [Ht [_ [Hg _]]]]]].
    rewrite Hr, Ht, Hg. split; [apply _log_effect|].
    split; intros _ Hctx; now apply _log_no_ctx. }
  destruct ev; try discriminate; simpl in Hstep;
    try (unfold with_task in Hstep; rewrite Htasks in Hstep; discriminate).
  - inversion Hstep; subst. split; [apply flush_frame|].
    split; discriminate.
  - inversion Hstep; subst. split; [apply scheduleFlush_requests|].
    split; intros _ _; apply scheduleFlush_frame.
  - destruct (existsb _ _); [|discriminate]. inversion Hstep; subst.
    split; [now rewrite (proj1 (proj2 (proj2 (timer_callback_frame _))))|].
    split; intros _ Hctx; unfold timer_callback; simpl; rewrite Hctx;
      reflexivity.
Qed.

Lemma step_no_ctx (ev : Event) (s s' : Sys) :
  is_call_flush ev = false ->
  no_ctx_inv s -> step ev s = Some s' -> no_ctx_inv s'.
Proof.
  intros Hnf [Hctx [Htasks [Hreq Hreg]]] Hstep.
  assert (Hcfg : ctx (this s') = None).
  { pose proof (step_config ev s s' Hstep) as Hc. unfold config in Hc.
    inversion Hc as [Hc']. now rewrite Hc'. }
  assert (Hr : requests (host s') = []).
  { destruct (step_with_nothing_suspended ev s s' Hstep Htasks) as [-> _]. exact Hreq. }
  unfold no_ctx_inv. split; [exact Hcfg|]. split; [|split; [exact Hr|]].
  - destruct (step_with_nothing_suspended ev s s' Hstep Htasks) as [_ [Hx _]].
    rewrite (Hx Hnf Hctx). exact Htasks.
  - destruct (step_with_nothing_suspended ev s s' Hstep Htasks) as [_ [_ Hx]].
    rewrite (Hx Hnf Hctx). exact Hreg.
Qed.

(** X7: a logger constructed without a context never delivers on its own:
    over any run in which the application does not call [flush], whatever
    the record calls, the thresholds and the timers that fire, no request
    is made, no [flush] is started and nothing is registered. *)
Theorem no_context_never_delivers (args : LoggerArgs) (uuid : string)
    (evs : list Event) (s : Sys) :
  arg_ctx args = None ->
  forallb (fun ev => negb (is_call_flush ev)) evs = true ->
  run evs (boot args uuid) = Some s ->
  requests (host s) = [] /\ tasks (host s) = [] /\ registered (host s) = [].
Proof.
  intros Hctx Hall Hrun.
  assert (Hinv : no_ctx_inv (boot args uuid)).
  { unfold no_ctx_inv. simpl. auto. }
  clear Hctx. revert Hall Hrun Hinv. generalize (boot args uuid) as s0.
  induction evs as [|ev evs IH]; intros s0 Hall Hrun Hinv; simpl in *.
  - inversion Hrun; subst. destruct Hinv as [_ [H1 [H2 H3]]]. auto.
  - apply andb_true_iff in Hall as [Hev Hall].
    apply negb_true_iff in Hev.
    destruct (step ev s0) as [s1|] eqn:Hstep; [|discriminate].
    apply (IH s1 Hall Hrun). now apply (step_no_ctx ev s0).
Qed.

Lemma no_context_never_delivers_witness :
  requests (host (or_else
    (run [CallInfo sample_amb "a" None; TimerFires 1;
          CallInfo sample_amb "b" None] no_ctx_sys) no_ctx_sys)) = []
  /\ tasks (host (or_else
    (run [CallInfo sample_amb "a" None; TimerFires 1;
          CallInfo sample_amb "b" None] no_ctx_sys) no_ctx_sys)) = []
  /\ registered (host (or_else
    (run [CallInfo sample_amb "a" None; TimerFires 1;
          CallInfo sample_amb "b" None] no_ctx_sys) no_ctx_sys)) = [].
Proof.
  exact (no_context_never_delivers (with_ctx None sample_args) "uuid-1"
           [CallInfo sample_amb "a" None; TimerFires 1;
            CallInfo sample_amb "b" None] _ eq_refl eq_refl eq_refl).
Defined.

(** ** Whole executions of [flush] *)

(** X8: on an idle logger with an empty buffer a [flush], with or without
    [skipIfInProgress], runs to its end without a request: it sets the
    in-flight handle to a [doFlush] that returns at once, clears it again
    and fulfils its promise; buffer, console and suspended bodies are as
    before. *)
Theorem flush_of_empty_buffer (skip : bool) (s : Sys) :
  flushPromise (this s) = None ->
  logs (this s) = [] ->
  exists s',
    run [CallFlush skip; Resume (next_promise (host s));
         Resume (next_promise (host s))] s = Some s'
    /\ requests (host s') = requests (host s)
    /\ logs (this s') = []
    /\ flushPromise (this s') = None
    /\ promise_state (next_promise (host s)) (host s') = Some Fulfilled
    /\ console (host s') = console (host s)
    /\ tasks (host s') = tasks (host s).
Proof.
  intros Hidle Hlogs. destruct s as [e h]. simpl in *.
  repeat (progress (simpl;
                    unfold with_task, promise_state, flush_start, doFlush,
                      flush;
                    rewrite ?Nat.eqb_refl, ?Hidle, ?Hlogs, ?andb_false_r)).
  eexists. split; [reflexivity|].
  repeat (progress (simpl; rewrite ?Nat.eqb_refl, ?Hlogs)).
  repeat split.
Qed.

Lemma flush_of_empty_buffer_witness :
  exists s',
    run [CallFlush false; Resume 0; Resume 0] (boot sample_args "uuid-1")
    = Some s'
    /\ requests (host s') = []
    /\ flushPromise (this s') = None.
Proof.
  destruct (flush_of_empty_buffer false (boot sample_args "uuid-1")
              eq_refl eq_refl) as [s' [H1 [H2 [_ [H3 _]]]]].
  exists s'. split; [exact H1|]. split; [exact H2|exact H3].
Defined.



(** X10: an ok response whose body cannot be read: the records were already
    removed at line 159 when [res.arrayBuffer()] rejects, and the [catch]
    clause prints the failure line all the same; [doFlush] ends normally. *)
Theorem ok_response_with_unreadable_body (s : Sys) (req d n : nat)
    (others : list Task) (status : Z) (statusText err : string) :
  take_task (awaits_fetch req) (tasks (host s))
    = Some (DoFlushAwaitFetch d n req, others) ->
  response_ok status = true ->
  exists s',
    run [FetchResolves req status statusText; BodyRejects req err] s = Some s'
    /\ logs (this s') = skipn n (logs (this s))
    /\ console (host s')
       = (console (host s) ++ [ConsoleError (failure_prefix ++ err)])%list
    /\ promise_state d (host s') = Some Fulfilled
    /\ tasks (host s') = others.
Proof.
  intros Htask Hok. simpl. unfold with_task. rewrite Htask.
  unfold doFlush_response. rewrite Hok. simpl. rewrite Nat.eqb_refl. simpl.
  eexists. split; [reflexivity|]. unfold promise_state. simpl.
  rewrite Nat.eqb_refl. repeat split.
Qed.

Lemma ok_response_with_unreadable_body_witness :
  exists s',
    run [FetchResolves 0 200 "OK"; BodyRejects 0 "TypeError: terminated"]
      in_flight_sys = Some s'
    /\ logs (this s') = []
    /\ console (host s')
       = [ConsoleError "Axiom failed to ingest logs: TypeError: terminated"].
Proof.
  destruct (ok_response_with_unreadable_body in_flight_sys 0 1 1 _ 200 "OK"
              "TypeError: terminated" eq_refl eq_refl)
    as [s' [H1 [H2 [H3 _]]]].
  exists s'. split; [exact H1|]. split; [exact H2|exact H3].
Defined.

(** X11: a whole successful [flush]: on an idle logger whose non-empty
    buffer serializes, the call, its resumption, an ok answer, the reading
    of the body (done or failed) and the final resumption make one request,
    a POST to [apiURL/datasets/dataset/ingest] with the JSON content type,
    the bearer key and the serialized buffer as body, empty the buffer,
    clear the in-flight handle and fulfil the promise of the call. *)
Theorem successful_flush_empties_buffer (skip : bool) (s : Sys)
    (text : option string) (status : Z) (statusText : string)
    (body : BodyRead) :
  flushPromise (this s) = None ->
  logs (this s) <> [] ->
  JSON.stringify (JArr (map JObj (logs (this s)))) = Normal text ->
  response_ok status = true ->
  let p := next_promise (host s) in
  let req := List.length (requests (host s)) in
  exists s',
    run (CallFlush skip :: Resume p
           :: delivery_events req (Responded status statusText body)
           ++ [Resume p]) s = Some s'
    /\ requests (host s')
       = (requests (host s) ++ [ingest_request (this s) text])%list
    /\ logs (this s') = []
    /\ flushPromise (this s') = None
    /\ promise_state p (host s') = Some Fulfilled
    /\ tasks (host s') = tasks (host s).
Proof.
  intros Hidle Hlogs Htext Hok p req. subst p req.
  destruct s as [e h]. simpl in *.
  destruct (logs e) as [|l0 ls] eqn:Hl; [contradiction|].
  destruct body as [txt|err];
    repeat (progress (simpl;
                      unfold with_task, promise_state, flush_start, doFlush,
                        flush, doFlush_response;
                      rewrite ?Nat.eqb_refl, ?Hidle, ?Hl, ?Htext, ?Hok,
                        ?andb_false_r));
    (eexists; split; [reflexivity|]);
    repeat split;
    repeat (progress (simpl; unfold promise_state;
                      rewrite ?Nat.eqb_refl, ?Hl, ?skipn_all));
    reflexivity.
Qed.

Lemma successful_flush_empties_buffer_witness :
  exists s',
    run (CallFlush false :: Resume 0
           :: delivery_events 0 (Responded 200 "OK" (BodyText "{}"))
           ++ [Resume 0]) buffered_sys = Some s'
    /\ List.length (requests (host s')) = 1
    /\ logs (this s') = []
    /\ flushPromise (this s') = None.
Proof.
  assert (Ht : exists t, JSON.stringify
                           (JArr (map JObj (logs (this buffered_sys))))
                         = Normal t) by (eexists; reflexivity).
  destruct Ht as [t Ht].
  assert (Hne : logs (this buffered_sys) <> []) by discriminate.
  destruct (successful_flush_empties_buffer false buffered_sys t 200 "OK"
              (BodyText "{}") eq_refl Hne Ht eq_refl)
    as [s' [H1 [H2 [H3 [H4 _]]]]].
  exists s'. split; [exact H1|]. split; [now rewrite H2|].
  split; [exact H3|exact H4].
Defined.

(** X12: two calls of [flush] made on an idle logger before either has
    resumed both deliver, whatever their [skipIfInProgress]: the guard of
    line 138 reads a handle that is only set at line 176.  Both snapshot
    the whole buffer and both send the same request. *)
Theorem flush_calls_before_resumption_both_send (skip1 skip2 : bool) (s : Sys)
    (text : option string) :
  flushPromise (this s) = None ->
  logs (this s) <> [] ->
  JSON.stringify (JArr (map JObj (logs (this s)))) = Normal text ->
  let p := next_promise (host s) in
  let req := List.length (requests (host s)) in
  let n := List.length (logs (this s)) in
  exists s',
    run [CallFlush skip1; CallFlush skip2; Resume p; Resume (S p)] s = Some s'
    /\ requests (host s')
       = (requests (host s)
            ++ [ingest_request (this s) text; ingest_request (this s) text])%list
    /\ tasks (host s')
       = FlushAwaitCurrent (S p) (S (S (S p)))
           :: DoFlushAwaitFetch (S (S (S p))) n (S req)
           :: FlushAwaitCurrent p (S (S p))
           :: DoFlushAwaitFetch (S (S p)) n req
           :: tasks (host s)
    /\ logs (this s') = logs (this s).
Proof.
  intros Hidle Hlogs Htext p req n. subst p req n.
  destruct s as [e h]. simpl in *.
  destruct (logs e) as [|l0 ls] eqn:Hl; [contradiction|].
  assert (Hne : (S (next_promise h) =? next_promise h)%nat = false).
  { apply Nat.eqb_neq. lia. }
  pose proof Hne as Hne'. simpl in Hne'.
  assert (Hne2 : (next_promise h =? S (next_promise h))%nat = false).
  { apply Nat.eqb_neq. lia. }
  repeat (progress (simpl;
                    unfold with_task, promise_state, flush_start, doFlush,
                      flush;
                    rewrite ?Nat.eqb_refl, ?Hidle, ?Hl, ?Htext, ?Hne, ?Hne', ?Hne2,
                      ?andb_false_r)).
  eexists. split; [reflexivity|].
  repeat split;
    repeat (progress (simpl; rewrite ?Hl, ?length_app, <- ?app_assoc));
    rewrite ?Nat.add_1_r; reflexivity.
Qed.

Lemma flush_calls_before_resumption_both_send_witness :
  exists s',
    run [CallFlush true; CallFlush true; Resume 0; Resume 1] buffered_sys
    = Some s'
    /\ List.length (requests (host s')) = 2.
Proof.
  assert (Ht : exists t, JSON.stringify
                           (JArr (map JObj (logs (this buffered_sys))))
                         = Normal t) by (eexists; reflexivity).
  destruct Ht as [t Ht].
  assert (Hne : logs (this buffered_sys) <> []) by discriminate.
  destruct (flush_calls_before_resumption_both_send true true buffered_sys t
              eq_refl Hne Ht) as [s' [H1 [H2 _]]].
  exists s'. split; [exact H1|]. now rewrite H2.
Defined.

(** ** Records and record calls *)

(** X13: every key of a record holds the value of the own enumerable
    property of the fields when they have that key, [message], [level],
    [traceId], [_time], [service] and [requestId] included, and otherwise
    what the logger puts there: the message of the call, the level line 87
    resolves ([data?.level], read through the prototype chain, when it is
    truthy, else the level of the call), the trace id of the active span,
    the time of the call, the service and the request id of the logger. *)
Theorem record_field_caller_wins (amb : Ambient) (e : EdgeLogger)
    (message : option string) (level : LogLevel) (data : option JsObject)
    (k : string) :
  obj_get k (make_log amb e message level data)
  = field_or k data (own_field amb e message level data k).
Proof.
  unfold make_log, obj_get, field_or, own_field.
  rewrite obj_lookup_spread.
  destruct data as [d|]; simpl.
  - destruct (obj_lookup k (enumerable d)) as [v|] eqn:Hk; [reflexivity|].
    repeat (destruct (String.eqb k _); [reflexivity|]). reflexivity.
  - repeat (destruct (String.eqb k _); [reflexivity|]). reflexivity.
Qed.

Lemma configured_fallback (log : Log) (s : Sys) :
  apiKey (this s) <> "" -> ctx (this s) <> None ->
  fallback_print log s = Normal s.
Proof.
  intros Hkey Hctx. unfold fallback_print.
  destruct (String.eqb_spec (apiKey (this s)) ""); [contradiction|].
  destruct (ctx (this s)); [reflexivity|contradiction].
Qed.

(** X14: with a key and a context, outside local development, each record
    method appends exactly one record built from its message and fields,
    at the level of the method: [info] for [log] and [info], [warning] for
    [warn], [debug] for [debug]; and it prints nothing. *)
Theorem record_methods_append_at_their_level (amb : Ambient) (msg : string)
    (data : option JsObject) (s : Sys) :
  isLocalDev (this s) = false ->
  apiKey (this s) <> "" ->
  ctx (this s) <> None ->
  (forall level call,
     In (level, call) [(LInfo, log); (LInfo, info); (LWarning, warn);
                       (LDebug, debug)] ->
     logs (this (call amb msg data s))
     = (logs (this s) ++ [make_log amb (this s) (Some msg) level data])%list
     /\ console (host (call amb msg data s)) = console (host s))
  /\ level_name LInfo = "info"
  /\ level_name LWarning = "warning"
  /\ level_name LDebug = "debug".
Proof.
  intros Hdev Hkey Hctx. split; [|repeat split].
  intros level call Hin.
  assert (Hcall : call amb msg data s
                  = unawaited (_log amb (Some msg) level data s)).
  { simpl in Hin.
    destruct Hin as [H|[H|[H|[H|[]]]]]; inversion H; subst; reflexivity. }
  rewrite Hcall.
  destruct (unawaited_keeps (_log amb (Some msg) level data s))
    as [-> [_ [_ [_ [-> _]]]]].
  destruct (_log_appends amb (Some msg) level data s s Hdev
              (configured_fallback _ s Hkey Hctx)) as [H1 [H2 _]].
  auto.
Qed.

Lemma record_methods_append_at_their_level_witness :
  logs (this (warn sample_amb "w" None (boot sample_args "uuid-1")))
  = [make_log sample_amb (this (boot sample_args "uuid-1")) (Some "w")
       LWarning None]
  /\ console (host (warn sample_amb "w" None (boot sample_args "uuid-1"))) = [].
Proof.
  assert (Hkey : apiKey (this (boot sample_args "uuid-1")) <> "")
    by discriminate.
  assert (Hctx : ctx (this (boot sample_args "uuid-1")) <> None)
    by discriminate.
  exact (proj1 (record_methods_append_at_their_level sample_amb "w" None
                  (boot sample_args "uuid-1") eq_refl Hkey Hctx)
           LWarning warn (or_intror (or_intror (or_introl eq_refl)))).
Defined.

Lemma record_call_configured (ev : Event) (s s' : Sys) :
  is_record_call ev = true -> step ev s = Some s' ->
  isLocalDev (this s) = false -> apiKey (this s) <> "" ->
  ctx (this s) <> None ->
  (exists r, logs (this s') = (logs (this s) ++ [r])%list)
  /\ console (host s') = console (host s).
Proof.
  intros Hrec Hstep Hdev Hkey Hctx.
  destruct (record_call_is_log ev s s' Hrec Hstep)
    as [amb [message [level [data ->]]]].
  destruct (unawaited_keeps (_log amb message level data s))
    as [-> [_ [_ [_ [-> _]]]]].
  destruct (_log_appends amb message level data s s Hdev
              (configured_fallback _ s Hkey Hctx)) as [H1 [H2 _]].
  split; [eexists; exact H1|exact H2].
Qed.

(** X15: with a key and a context, outside local development, a run of
    record calls leaves the earlier records in place, adds one record per
    call after them and prints nothing, whatever the thresholds, the timers
    and the flushes pending. *)
Theorem record_calls_add_one_record_each (evs : list Event) (s s' : Sys) :
  forallb is_record_call evs = true ->
  isLocalDev (this s) = false ->
  apiKey (this s) <> "" ->
  ctx (this s) <> None ->
  run evs s = Some s' ->
  (exists more,
     logs (this s') = (logs (this s) ++ more)%list
     /\ List.length more = List.length evs)
  /\ console (host s') = console (host s).
Proof.
  revert s. induction evs as [|ev evs IH];
    intros s Hall Hdev Hkey Hctx Hrun; simpl in *.
  - inversion Hrun; subst. split; [|reflexivity].
    exists []. now rewrite app_nil_r.
  - apply andb_true_iff in Hall as [Hev Hall].
    destruct (step ev s) as [s1|] eqn:Hstep; [|discriminate].
    destruct (record_call_configured ev s s1 Hev Hstep Hdev Hkey Hctx)
      as [[r Hr] Hc].
    pose proof (step_config ev s s1 Hstep) as Hcfg. unfold config in Hcfg.
    inversion Hcfg as [[Hc1 Hc2 Hc3 Hc4 Hc5 Hc6 Hc7 Hc8 Hc9]].
    destruct (IH s1 Hall) as [[more [Hm Hlen]] Hcons]; try congruence.
    split; [|congruence].
    exists (r :: more). rewrite Hm, Hr, <- app_assoc. simpl. auto.
Qed.

Lemma record_calls_add_one_record_each_witness :
  (exists more,
     logs (this threshold_sys)
     = (logs (this (boot (with_flushAfterLogs 2 sample_args) "uuid-1"))
          ++ more)%list
     /\ List.length more = 1)
  /\ console (host threshold_sys) = [].
Proof.
  assert (Hkey : apiKey (this (boot (with_flushAfterLogs 2 sample_args)
                                 "uuid-1")) <> "") by discriminate.
  assert (Hctx : ctx (this (boot (with_flushAfterLogs 2 sample_args)
                              "uuid-1")) <> None) by discriminate.
  exact (record_calls_add_one_record_each [CallInfo sample_amb "a" None]
           (boot (with_flushAfterLogs 2 sample_args) "uuid-1") threshold_sys
           eq_refl eq_refl Hkey Hctx eq_refl).
Defined.

(** ** The time trigger *)

(** X16: a record call that appends and leaves the buffer below the count
    threshold starts no flush and registers nothing; it arms one timer with
    the delay [flushAfterMs] when no timer is pending and no flush is in
    flight, and leaves the timers alone otherwise. *)
Theorem below_threshold_only_arms_timer (amb : Ambient)
    (message : option string) (level : LogLevel) (data : option JsObject)
    (s s1 : Sys) :
  isLocalDev (this s) = false ->
  fallback_print (make_log amb (this s) message level data) s = Normal s1 ->
  (Z.of_nat (S (List.length (logs (this s)))) < flushAfterLogs (this s))%Z ->
  let r := _log amb message level data s in
  fst r = Fulfilled
  /\ tasks (host (snd r)) = tasks (host s)
  /\ registered (host (snd r)) = registered (host s)
  /\ flushPromise (this (snd r)) = flushPromise (this s)
  /\ if is_some (flushTimeout (this s)) || is_some (flushPromise (this s))
     then timers (host (snd r)) = timers (host s)
          /\ flushTimeout (this (snd r)) = flushTimeout (this s)
     else timers (host (snd r))
          = (timers (host s) ++ [(next_timer (host s), flushAfterMs (this s))])%list
          /\ flushTimeout (this (snd r)) = Some (next_timer (host s)).
Proof.
  intros Hdev Hfb Hlt r. subst r.
  destruct (fallback_print_frame _ _ _ Hfb) as [Hthis [Hreg [Htasks _]]].
  destruct (fallback_print_keeps _ _ _ Hfb) as [_ [_ [Htm _]]].
  assert (Hnt : next_timer (host s1) = next_timer (host s)).
  { unfold fallback_print in Hfb. destruct (_ || _); [|now inversion Hfb].
    destruct (JSON.stringify _); inversion Hfb; reflexivity. }
  assert (Hb : (Z.of_nat (S (List.length (logs (this s))))
                >=? flushAfterLogs (this s))%Z = false).
  { rewrite Z.geb_leb. apply Z.leb_gt. lia. }
  unfold _log. rewrite Hdev, Hfb. unfold after_push. simpl.
  rewrite Hthis, length_app. simpl. rewrite Nat.add_1_r, Hb.
  rewrite <- Hreg, <- Htasks, <- Htm, <- Hnt.
  clear Hfb Hb Hlt Hdev Hreg Htasks Htm Hnt.
  destruct s1 as [e h]. simpl in Hthis. subst e.
  destruct (this s) as [cx ak ds sv lg rid ft fp ms cnt au dev].
  unfold scheduleFlush, setTimeout. simpl.
  destruct ft as [t|], fp as [d|]; simpl; repeat split.
Qed.

Lemma below_threshold_only_arms_timer_witness :
  tasks (host (snd (_log sample_amb (Some "a") LInfo None
                      (boot sample_args "uuid-1")))) = []
  /\ timers (host (snd (_log sample_amb (Some "a") LInfo None
                          (boot sample_args "uuid-1")))) = [(1, 10000%Z)].
Proof.
  assert (Hlt : (Z.of_nat (S (List.length (logs (this (boot sample_args
                   "uuid-1"))))) < flushAfterLogs (this (boot sample_args
                   "uuid-1")))%Z) by reflexivity.
  destruct (below_threshold_only_arms_timer sample_amb (Some "a") LInfo None
              (boot sample_args "uuid-1") (boot sample_args "uuid-1")
              eq_refl eq_refl Hlt) as [_ [H1 [_ [_ H2]]]].
  split; [exact H1|exact (proj1 H2)].
Defined.

(** ** A [flush] called during a flush *)

(** X17: a [flush()] called while a delivery is in flight waits at line 174
    for the handle it found.  When the first delivery has succeeded and no
    record was added meanwhile, the second call finds the buffer empty and
    makes no request: one request in all, both promises fulfilled, the
    logger idle again. *)
Theorem flush_during_flush_sends_nothing_twice (skip : bool) (s : Sys)
    (text : option string) (status : Z) (statusText body : string) :
  flushPromise (this s) = None ->
  logs (this s) <> [] ->
  JSON.stringify (JArr (map JObj (logs (this s)))) = Normal text ->
  response_ok status = true ->
  promise_state (S (next_promise (host s))) (host s) = None ->
  let p := next_promise (host s) in
  let q := S (S p) in
  let req := List.length (requests (host s)) in
  exists s1 s2,
    run [CallFlush skip; Resume p; CallFlush false] s = Some s1
    /\ step (Resume q) s1 = None
    /\ run [FetchResolves req status statusText; BodyResolves req body;
            Resume p; Resume q; Resume q] s1 = Some s2
    /\ requests (host s2)
       = (requests (host s) ++ [ingest_request (this s) text])%list
    /\ logs (this s2) = []
    /\ flushPromise (this s2) = None
    /\ promise_state p (host s2) = Some Fulfilled
    /\ promise_state q (host s2) = Some Fulfilled.
Proof.
  intros Hidle Hlogs Htext Hok Hfresh p q req. subst p q req.
  destruct s as [e h]. unfold promise_state in Hfresh. simpl in *.
  destruct (logs e) as [|l0 ls] eqn:Hl; [contradiction|].
  assert (Hne : (S (next_promise h) =? next_promise h)%nat = false).
  { apply Nat.eqb_neq. lia. }
  pose proof Hne as Hne'. simpl in Hne'.
  assert (Hne2 : (S (S (next_promise h)) =? next_promise h)%nat = false).
  { apply Nat.eqb_neq. lia. }
  pose proof Hne2 as Hne2'. simpl in Hne2'.
  assert (Hne3 : (next_promise h =? S (S (next_promise h)))%nat = false).
  { apply Nat.eqb_neq. lia. }
  assert (Hne4 : (S (next_promise h) =? S (S (next_promise h)))%nat = false).
  { apply Nat.eqb_neq. lia. }
  pose proof Hne4 as Hne4'. simpl in Hne4'.
  assert (Hne5 : (S (next_promise h) =? S (S (S (next_promise h))))%nat = false).
  { apply Nat.eqb_neq. lia. }
  pose proof Hne5 as Hne5'. simpl in Hne5'.
  repeat (progress (simpl;
                    unfold with_task, promise_state, flush_start, doFlush,
                      flush, doFlush_response;
                    rewrite ?Nat.eqb_refl, ?Hidle, ?Hl, ?Htext, ?Hok, ?Hne,
                      ?Hne', ?Hne2, ?Hne2', ?Hne3, ?Hne4, ?Hne4', ?Hne5,
                      ?Hne5', ?Hfresh, ?skipn_all, ?andb_false_r)).
  eexists. eexists. split; [reflexivity|].
  repeat (progress (simpl;
                    unfold with_task, promise_state, flush_start, doFlush,
                      flush, doFlush_response;
                    rewrite ?Nat.eqb_refl, ?Hidle, ?Hl, ?Htext, ?Hok, ?Hne,
                      ?Hne', ?Hne2, ?Hne2', ?Hne3, ?Hne4, ?Hne4', ?Hne5,
                      ?Hne5', ?Hfresh, ?skipn_all, ?andb_false_r)).
  split; [reflexivity|]. split; [reflexivity|].
  repeat split;
    repeat (progress (simpl; unfold promise_state;
                      rewrite ?Nat.eqb_refl, ?Hl, ?Hne, ?Hne', ?Hne2, ?Hne2',
                        ?Hne3, ?Hne4, ?Hne4', ?skipn_all));
    repeat match goal with
           | |- context [if ?b then ?x else ?x] => destruct b
           end;
    reflexivity.
Qed.

Lemma flush_during_flush_sends_nothing_twice_witness :
  exists s1 s2,
    run [CallFlush false; Resume 0; CallFlush false] buffered_sys = Some s1
    /\ step (Resume 2) s1 = None
    /\ run [FetchResolves 0 200 "OK"; BodyResolves 0 "{}";
            Resume 0; Resume 2; Resume 2] s1 = Some s2
    /\ List.length (requests (host s2)) = 1
    /\ logs (this s2) = [].
Proof.
  assert (Ht : exists t, JSON.stringify
                           (JArr (map JObj (logs (this buffered_sys))))
                         = Normal t) by (eexists; reflexivity).
  destruct Ht as [t Ht].
  assert (Hne : logs (this buffered_sys) <> []) by discriminate.
  destruct (flush_during_flush_sends_nothing_twice false buffered_sys t 200
              "OK" "{}" eq_refl Hne Ht eq_refl eq_refl)
    as [s1 [s2 [H1 [H2 [H3 [H4 [H5 _]]]]]]].
  exists s1, s2. split; [exact H1|]. split; [exact H2|].
  split; [exact H3|]. split; [now rewrite H4|exact H5].
Defined.

(** ** Witnesses for properties proved above *)

Lemma local_dev_never_requests_witness :
  requests (host (or_else
    (run [CallInfo sample_amb "a" None; CallFlush false; Resume 0; Resume 0]
       local_dev_sys) local_dev_sys)) = []
  /\ logs (this (or_else
    (run [CallInfo sample_amb "a" None; CallFlush false; Resume 0; Resume 0]
       local_dev_sys) local_dev_sys)) = [].
Proof.
  apply (local_dev_never_requests (with_isLocalDev true sample_args) "uuid-1"
           [CallInfo sample_amb "a" None; CallFlush false; Resume 0;
            Resume 0]).
  - reflexivity.
  - vm_compute. reflexivity.
Defined.

Lemma single_flight_keeps_later_records_witness :
  exists later s2,
    logs (this (or_else (run [CallInfo sample_amb "b" None;
                              CallWarn sample_amb "c" None] in_flight_sys)
                  in_flight_sys))
    = (logs (this in_flight_sys) ++ later)%list
    /\ step (FetchResolves 0 200 "OK")
         (or_else (run [CallInfo sample_amb "b" None;
                        CallWarn sample_amb "c" None] in_flight_sys)
            in_flight_sys) = Some s2
    /\ logs (this s2) = later.
Proof.
  apply (single_flight_keeps_later_records in_flight_sys _ 0 1
           [FlushAwaitCurrent 0 1]
           [CallInfo sample_amb "b" None; CallWarn sample_amb "c" None]
           200 "OK").
  - vm_compute. reflexivity.
  - vm_compute. reflexivity.
  - reflexivity.
  - vm_compute. reflexivity.
  - reflexivity.
Defined.
